(** * ClusterQueue controller (pkg/controller/core/clusterqueue_controller.go)

    A shallow embedding of the ClusterQueue reconciler: the event
    predicates [Create], [Delete], [Update] and [Generic], the reference
    synchronisation [updateReferences] with its helper
    [updateResourceFlavorReferences], the workload handler and [Reconcile].

    Go maps are stdpp [gmap]s, Go maps used as sets are [gset]s, a nil map
    is [None].  Every call that leaves the controller (API client, cache,
    queue manager, error log) is threaded through an explicit [World] in a
    small state monad; the API client calls, the mutating cache and queue
    manager calls and the error log lines are recorded in a trace, most
    recent first. *)

From stdpp Require Import gmap strings list fin_maps fin_sets.
From Stdlib Require Import ZArith.

Set Warnings "-clear-no-such-hyp".

Local Open Scope Z_scope.
Local Open Scope string_scope.
Local Open Scope list_scope.

(** ** A small state monad *)

Definition State (S A : Type) : Type := S → A * S.

Definition ret {S A} (a : A) : State S A := λ s, (a, s).

Definition bind {S A B} (m : State S A) (k : A → State S B) : State S B :=
  λ s, let '(a, s1) := m s in k a s1.

Notation "'do' x <- m ; k" := (bind m (λ x, k))
  (at level 10, x name, m at level 100, k at level 200).
Notation "'run' m ; k" := (bind m (λ _, k))
  (at level 10, m at level 100, k at level 200).

(** [for k := range ks { body k }] over the keys in the order [ks]. *)
Fixpoint forRange {S K} (ks : list K) (body : K → State S unit) : State S unit :=
  match ks with
  | [] => ret tt
  | k :: ks' => run body k; forRange ks' body
  end.

(** ** API objects

    Modelled from the spec: the API types of [apis/kueue/v1alpha1], which
    the controller imports, with the fields the controller reads or writes
    and the shapes section 3 and section 6 of the specification give them. *)

(** A Go slice is nil or holds elements; [reflect.DeepEqual] tells a nil
    slice from an empty one, [range] does not. *)
Inductive slice (A : Type) : Type :=
| nil_slice
| slice_of (l : list A).
Arguments nil_slice {A}.
Arguments slice_of {A} l.

Definition items {A} (s : slice A) : list A :=
  match s with
  | nil_slice => []
  | slice_of l => l
  end.

(** kueue.Flavor: the referenced ResourceFlavor and its quota. *)
Record Flavor := {
  flavor_Name : string;
  flavor_Quota : Z
}.

(** kueue.Resource: one resource group of a ClusterQueue. *)
Record Resource := {
  resource_Name : string;
  Flavors : slice Flavor
}.

Record ClusterQueueSpec := {
  Resources : slice Resource;
  Cohort : string
}.

(** kueue.ClusterQueueStatus: used resources (a nil-able map from resource
    name to quantity), pending and admitted workload counts (int32). *)
Record ClusterQueueStatus := {
  UsedResources : option (gmap string Z);
  PendingWorkloads : Z;
  AdmittedWorkloads : Z
}.

Record ClusterQueue := {
  cq_Name : string;
  Spec : ClusterQueueSpec;
  Status : ClusterQueueStatus
}.

(** kueue.ResourceFlavor; [ClusterQueues] is the nil-able map
    [map[ClusterQueueReference]string] of referencing queues. *)
Record ResourceFlavor := {
  rf_Name : string;
  ClusterQueues : option (gmap string string)
}.

Record Admission := {
  adm_ClusterQueue : string
}.

Record Workload := {
  wl_Namespace : string;
  wl_Name : string;
  wl_Admission : option Admission
}.

(** The payload of a watch event, by dynamic type. *)
Inductive Object : Type :=
| ObjClusterQueue (cq : ClusterQueue)
| ObjResourceFlavor (rf : ResourceFlavor)
| ObjWorkload (w : Workload)
| ObjOther (kind : string).

#[global] Instance slice_eq_dec {A} `{EqDecision A} : EqDecision (slice A).
Proof. solve_decision. Defined.
#[global] Instance Flavor_eq_dec : EqDecision Flavor.
Proof. solve_decision. Defined.
#[global] Instance Resource_eq_dec : EqDecision Resource.
Proof. solve_decision. Defined.

(** [kueue.ClusterQueueSpec{}] and [kueue.ClusterQueue{}]. *)
Definition emptySpec : ClusterQueueSpec :=
  {| Resources := nil_slice; Cohort := "" |}.
Definition emptyStatus : ClusterQueueStatus :=
  {| UsedResources := None; PendingWorkloads := 0; AdmittedWorkloads := 0 |}.
Definition emptyClusterQueue : ClusterQueue :=
  {| cq_Name := ""; Spec := emptySpec; Status := emptyStatus |}.

(** ** Errors, results and the call trace *)

Inductive error : Type :=
| ErrNotFound
| ErrConflict
| ErrOther (msg : string).

#[global] Instance error_eq_dec : EqDecision error.
Proof. solve_decision. Defined.

Inductive result (A : Type) : Type :=
| Ok (a : A)
| Err (e : error).
Arguments Ok {A} a.
Arguments Err {A} e.

(** client.IgnoreNotFound *)
Definition IgnoreNotFound (err : option error) : option error :=
  match err with
  | Some ErrNotFound => None
  | _ => err
  end.

Inductive Event : Type :=
| EvList                                  (* client.List(&resourceFlavors) *)
| EvUpdate (rf : ResourceFlavor)          (* client.Update(rf) *)
| EvGet (name : string)                   (* client.Get(name, &cqObj) *)
| EvStatusUpdate (cq : ClusterQueue)      (* client.Status().Update(&cqObj) *)
| EvCacheAdd (cq : ClusterQueue)
| EvCacheUpdate (cq : ClusterQueue)
| EvCacheDelete (cq : ClusterQueue)
| EvQueueAdd (cq : ClusterQueue)
| EvQueueUpdate (cq : ClusterQueue)
| EvQueueDelete (cq : ClusterQueue)
| EvLogError (msg : string).              (* log.Error(err, msg) *)

Definition isList (e : Event) : bool :=
  match e with EvList => true | _ => false end.
Definition isUpdate (e : Event) : bool :=
  match e with EvUpdate _ => true | _ => false end.
Definition isStatusUpdate (e : Event) : bool :=
  match e with EvStatusUpdate _ => true | _ => false end.

Fixpoint countEvents (p : Event → bool) (t : list Event) : nat :=
  match t with
  | [] => O
  | e :: t' => if p e then S (countEvents p t') else countEvents p t'
  end.

(** Number of flavor list calls recorded in a trace. *)
Definition listCalls (t : list Event) : nat := countEvents isList t.

(** ** Collaborators

    The cache ([pkg/cache]) and the queue manager ([pkg/queue]) are consumed
    through their methods only: they are parameters of the development, and
    the controller is verified against every implementation of them. *)

Class CacheAPI (C : Type) := {
  cache_AddClusterQueue : C → ClusterQueue → C * option error;
  cache_UpdateClusterQueue : C → ClusterQueue → C * option error;
  cache_DeleteClusterQueue : C → ClusterQueue → C;
  (* (usage, workloads int, err) *)
  cache_Usage : C → ClusterQueue → option (gmap string Z) * Z * option error
}.

Class QueueManagerAPI (Q : Type) := {
  queue_AddClusterQueue : Q → ClusterQueue → Q * option error;
  queue_UpdateClusterQueue : Q → ClusterQueue → Q * option error;
  queue_DeleteClusterQueue : Q → ClusterQueue → Q;
  queue_Pending : Q → ClusterQueue → Z;
  (* (name string, ok bool) *)
  queue_ClusterQueueForWorkload : Q → Workload → string * bool
}.

(** Failures of the API server, chosen by the environment: the outcome of a
    List call by the number of List calls made before it, the outcome of the
    other calls by the name of the object.  One value describes the failures
    of one run of a predicate or of [Reconcile], in which every object is
    written at most once; two runs whose calls may fail independently are
    given a value each. *)
Record Faults := {
  listFault : nat → option error;
  updateFault : string → option error;
  getFault : string → option error;
  statusUpdateFault : string → option error
}.

Definition noFaults : Faults :=
  {| listFault := λ _, None; updateFault := λ _, None;
     getFault := λ _, None; statusUpdateFault := λ _, None |}.

(** ** The world the controller runs in *)

Section Controller.

Context {C Q : Type} `{!CacheAPI C} `{!QueueManagerAPI Q}.
Variable F : Faults.
(* constants.UpdatesBatchPeriod *)
Variable UpdatesBatchPeriod : Z.

(** The persisted ResourceFlavors (by name, holding their [ClusterQueues]
    field), the persisted ClusterQueues, the cache, the queue manager and
    the trace of calls. *)
Record World := {
  flavors : gmap string (option (gmap string string));
  queues : gmap string ClusterQueue;
  cache : C;
  qManager : Q;
  trace : list Event
}.

Definition setFlavors (fl : gmap string (option (gmap string string))) (w : World) : World :=
  {| flavors := fl; queues := queues w; cache := cache w;
     qManager := qManager w; trace := trace w |}.
Definition setQueues (qs : gmap string ClusterQueue) (w : World) : World :=
  {| flavors := flavors w; queues := qs; cache := cache w;
     qManager := qManager w; trace := trace w |}.
Definition setCache (c : C) (w : World) : World :=
  {| flavors := flavors w; queues := queues w; cache := c;
     qManager := qManager w; trace := trace w |}.
Definition setQManager (q : Q) (w : World) : World :=
  {| flavors := flavors w; queues := queues w; cache := cache w;
     qManager := q; trace := trace w |}.
Definition record (e : Event) (w : World) : World :=
  {| flavors := flavors w; queues := queues w; cache := cache w;
     qManager := qManager w; trace := e :: trace w |}.

Definition logError (msg : string) : State World unit :=
  λ w, (tt, record (EvLogError msg) w).

(** *** The API client

    Modelled from the spec: the object store behind the controller-runtime
    client, with the operations of section 6 (get, list, update, status
    update); a call fails when the environment [F] says so and otherwise
    acts on the persisted objects. *)

(** The items of a ResourceFlavorList. *)
Definition flavorItems (fl : gmap string (option (gmap string string))) : list ResourceFlavor :=
  (λ p, {| rf_Name := p.1; ClusterQueues := p.2 |}) <$> map_to_list fl.

(** [client.List(ctx, &resourceFlavors)]: a fresh copy of the persisted
    flavors, or an error. *)
Definition client_List : State World (result (list ResourceFlavor)) :=
  λ w, let w1 := record EvList w in
       match listFault F (listCalls (trace w)) with
       | Some e => (Err e, w1)
       | None => (Ok (flavorItems (flavors w)), w1)
       end.

(** [client.Update(ctx, rf)]: persists [rf] unless the call fails. *)
Definition client_Update (rf : ResourceFlavor) : State World (option error) :=
  λ w, let w1 := record (EvUpdate rf) w in
       match updateFault F (rf_Name rf) with
       | Some e => (Some e, w1)
       | None => (None, setFlavors (<[rf_Name rf := ClusterQueues rf]> (flavors w1)) w1)
       end.

(** [client.Get(ctx, name, &cqObj)] *)
Definition client_Get (name : string) : State World (result ClusterQueue) :=
  λ w, let w1 := record (EvGet name) w in
       match getFault F name with
       | Some e => (Err e, w1)
       | None =>
           match queues w !! name with
           | Some cq => (Ok cq, w1)
           | None => (Err ErrNotFound, w1)
           end
       end.

Definition withStatus (st : ClusterQueueStatus) (cq : ClusterQueue) : ClusterQueue :=
  {| cq_Name := cq_Name cq; Spec := Spec cq; Status := st |}.

(** [client.Status().Update(ctx, &cqObj)]: overwrites the persisted status. *)
Definition client_StatusUpdate (cq : ClusterQueue) : State World (option error) :=
  λ w, let w1 := record (EvStatusUpdate cq) w in
       match statusUpdateFault F (cq_Name cq) with
       | Some e => (Some e, w1)
       | None => (None, setQueues (alter (withStatus (Status cq)) (cq_Name cq) (queues w1)) w1)
       end.

(** *** Cache and queue manager calls *)

Definition cacheAdd (cq : ClusterQueue) : State World (option error) :=
  λ w, let '(c, err) := cache_AddClusterQueue (cache w) cq in
       (err, setCache c (record (EvCacheAdd cq) w)).
Definition cacheUpdate (cq : ClusterQueue) : State World (option error) :=
  λ w, let '(c, err) := cache_UpdateClusterQueue (cache w) cq in
       (err, setCache c (record (EvCacheUpdate cq) w)).
Definition cacheDelete (cq : ClusterQueue) : State World unit :=
  λ w, (tt, setCache (cache_DeleteClusterQueue (cache w) cq) (record (EvCacheDelete cq) w)).
Definition queueAdd (cq : ClusterQueue) : State World (option error) :=
  λ w, let '(q, err) := queue_AddClusterQueue (qManager w) cq in
       (err, setQManager q (record (EvQueueAdd cq) w)).
Definition queueUpdate (cq : ClusterQueue) : State World (option error) :=
  λ w, let '(q, err) := queue_UpdateClusterQueue (qManager w) cq in
       (err, setQManager q (record (EvQueueUpdate cq) w)).
Definition queueDelete (cq : ClusterQueue) : State World unit :=
  λ w, (tt, setQManager (queue_DeleteClusterQueue (qManager w) cq) (record (EvQueueDelete cq) w)).

(** *** Reference synchronisation *)

(** The loops filling [oldFlavors] / [newFlavors]: a map[string]string
    whose values are all empty, that is a set of flavor names. *)
Definition flavorNames (rs : slice Resource) : gset string :=
  foldl (λ acc res,
           foldl (λ acc' f, {[flavor_Name f]} ∪ acc') acc (items (Flavors res)))
        ∅ (items rs).

(** [for k := range xs { if _, ok := ys[k]; !ok { need[k] = "" } }] *)
Definition missingFrom (xs ys : gset string) : gset string :=
  foldl (λ need k, if decide (k ∈ ys) then need else {[k]} ∪ need) ∅ (elements xs).

(** [delete(refs, name)]; deleting from a nil map does nothing. *)
Definition removeRef (name : string) (refs : option (gmap string string)) :
    option (gmap string string) :=
  delete name <$> refs.

(** [if refs == nil { refs = make(...) }; refs[name] = ""] *)
Definition insertRef (name : string) (refs : option (gmap string string)) :
    option (gmap string string) :=
  Some (<[name := ""]> (default ∅ refs)).

(** The branch on [deletion] in the loop body. *)
Definition touchRefs (deletion : bool) (name : string)
    (refs : option (gmap string string)) : option (gmap string string) :=
  if deletion then removeRef name refs else insertRef name refs.

Definition touch (deletion : bool) (name : string) (rf : ResourceFlavor) : ResourceFlavor :=
  {| rf_Name := rf_Name rf;
     ClusterQueues := touchRefs deletion name (ClusterQueues rf) |}.

(** [refs[k]]: the entry of a referencing set, none in a nil map. *)
Definition refLookup (refs : option (gmap string string)) (k : string) : option string :=
  refs ≫= (λ m, m !! k).

(** [rfCache[rf.Name] = &resourceFlavors.Items[i]] *)
Definition buildRfCache (l : list ResourceFlavor) : gmap string ResourceFlavor :=
  foldl (λ m rf, <[rf_Name rf := rf]> m) ∅ l.

(** The body of [for k := range objs].  The pointer [rf] aliases one item
    of the list just fetched; no later iteration reads that item again
    (the keys of [objs] are distinct), so the mutation stays local. *)
Definition syncOne (cq : ClusterQueue) (rfCache : gmap string ResourceFlavor)
    (deletion : bool) (k : string) : State World unit :=
  match rfCache !! k with
  | Some rf =>
      do err <- client_Update (touch deletion (cq_Name cq) rf);
      match err with
      | Some _ => logError "Fail to update resource flavor reference"
      | None => ret tt
      end
  | None => logError "Cannot find resource flavor"
  end.

Definition updateResourceFlavorReferences (cq : ClusterQueue) (objs : gset string)
    (deletion : bool) : State World (option error) :=
  do r <- client_List;
  match r with
  | Err e => ret (Some e)
  | Ok resourceFlavors =>
      let rfCache := buildRfCache resourceFlavors in
      run forRange (elements objs) (syncOne cq rfCache deletion);
      ret None
  end.

(** The flavor names a queue's spec refers to. *)
Definition referencedFlavors (cq : ClusterQueue) : gset string :=
  flavorNames (Resources (Spec cq)).

Definition updateReferences (oldCQ cq : ClusterQueue) : State World (option error) :=
  let oldFlavors := flavorNames (Resources (Spec oldCQ)) in
  let newFlavors := flavorNames (Resources (Spec cq)) in
  let needRemove := missingFrom oldFlavors newFlavors in
  let needAdd := missingFrom newFlavors oldFlavors in
  do err <- updateResourceFlavorReferences cq needRemove true;
  match err with
  | Some e => ret (Some e)
  | None =>
      do err' <- updateResourceFlavorReferences cq needAdd false;
      match err' with
      | Some e => ret (Some e)
      | None => ret None
      end
  end.

(** *** Event predicates

    They return true to let the event reach the reconcile queue. *)

Definition logIfError (err : option error) (msg : string) : State World unit :=
  match err with
  | Some _ => logError msg
  | None => ret tt
  end.

Definition Create (obj : Object) : State World bool :=
  match obj with
  | ObjClusterQueue cq =>
      do err <- updateReferences emptyClusterQueue cq;
      match err with
      | Some _ =>
          run logError "Failed to update resource flavor reference";
          ret false
      | None =>
          do err1 <- cacheAdd cq;
          run logIfError err1 "Failed to add clusterQueue to cache";
          do err2 <- queueAdd cq;
          run logIfError err2 "Failed to add clusterQueue to queue manager";
          ret true
      end
  | _ => ret true
  end.

Definition Delete (obj : Object) : State World bool :=
  match obj with
  | ObjClusterQueue cq =>
      (* newCq := cq.DeepCopy(); newCq.Spec = kueue.ClusterQueueSpec{} *)
      let newCq := {| cq_Name := cq_Name cq; Spec := emptySpec; Status := Status cq |} in
      do err <- updateReferences cq newCq;
      match err with
      | Some _ =>
          run logError "Fail to remove resource flavor reference";
          ret false
      | None =>
          run cacheDelete cq;
          run queueDelete cq;
          ret true
      end
  | _ => ret true
  end.

(** [match && !reflect.DeepEqual(oldCQ.Spec.Resources, cq.Spec.Resources)] *)
Definition resourcesChanged (objOld : Object) (cq : ClusterQueue) : option ClusterQueue :=
  match objOld with
  | ObjClusterQueue oldCQ =>
      if bool_decide (Resources (Spec oldCQ) = Resources (Spec cq)) then None
      else Some oldCQ
  | _ => None
  end.

Definition Update (objOld objNew : Object) : State World bool :=
  match objNew with
  | ObjClusterQueue cq =>
      do err <- match resourcesChanged objOld cq with
                | Some oldCQ => updateReferences oldCQ cq
                | None => ret None
                end;
      match err with
      | Some _ =>
          run logError "Fail to update resource flavor reference";
          ret false
      | None =>
          do err1 <- cacheUpdate cq;
          run logIfError err1 "Failed to update clusterQueue in cache";
          do err2 <- queueUpdate cq;
          run logIfError err2 "Failed to update clusterQueue in queue manager";
          ret true
      end
  | _ => ret true
  end.

Definition Generic (obj : Object) : State World bool := ret true.

(** *** The workload handler *)

(** reconcile.Request: a NamespacedName. *)
Record Request := {
  req_Namespace : string;
  req_Name : string
}.

(** The rate limiting work queue, as the [AddAfter] calls it received, most
    recent first. *)
Definition WorkQueue : Type := list (Request * Z).

Definition requestForWorkloadClusterQueue (qm : Q) (w : Workload) : option Request :=
  match wl_Admission w with
  | Some adm => Some {| req_Namespace := ""; req_Name := adm_ClusterQueue adm |}
  | None =>
      let '(name, ok) := queue_ClusterQueueForWorkload qm w in
      if ok then Some {| req_Namespace := ""; req_Name := name |} else None
  end.

(** [cqWorkloadHandler.Generic]; the unchecked type assertion of the
    payload to a Workload panics on any other payload ([None]). *)
Definition cqWorkloadHandler_Generic (qm : Q) (obj : Object) (q : WorkQueue) : option WorkQueue :=
  match obj with
  | ObjWorkload w =>
      match requestForWorkloadClusterQueue qm w with
      | Some req => Some ((req, UpdatesBatchPeriod) :: q)
      | None => Some q
      end
  | _ => None
  end.

Definition cqWorkloadHandler_Create (q : WorkQueue) : WorkQueue := q.
Definition cqWorkloadHandler_Update (q : WorkQueue) : WorkQueue := q.
Definition cqWorkloadHandler_Delete (q : WorkQueue) : WorkQueue := q.

(** *** Status and Reconcile *)

(** The conversion [int32(workloads)]. *)
Definition int32 (z : Z) : Z := (z + 2 ^ 31) mod 2 ^ 32 - 2 ^ 31.

(** [ClusterQueueReconciler.Status] *)
Definition reconciler_Status (cq : ClusterQueue) : State World (result ClusterQueueStatus) :=
  λ w, let '(usage, workloads, err) := cache_Usage (cache w) cq in
       match err with
       | Some e => (Err e, record (EvLogError "Failed getting usage from cache") w)
       | None =>
           (Ok {| UsedResources := usage;
                  AdmittedWorkloads := int32 workloads;
                  PendingWorkloads := queue_Pending (qManager w) cq |}, w)
       end.

(** Modelled from the spec: [equality.Semantic.DeepEqual] of the apimachinery
    library on two statuses, a deep comparison by value in which a nil map
    equals an empty one and the entries of a map have no order. *)
Definition SemanticDeepEqual (a b : ClusterQueueStatus) : bool :=
  bool_decide (default ∅ (UsedResources a) = default ∅ (UsedResources b))
  && bool_decide (PendingWorkloads a = PendingWorkloads b)
  && bool_decide (AdmittedWorkloads a = AdmittedWorkloads b).

(** [Reconcile] for the request named [name]; the [ctrl.Result] it returns
    is always empty, so only the error is kept. *)
Definition Reconcile (name : string) : State World (option error) :=
  do r <- client_Get name;
  match r with
  | Err e => ret (IgnoreNotFound (Some e))
  | Ok cqObj =>
      do st <- reconciler_Status cqObj;
      match st with
      | Err e =>
          run logError "Failed getting status from cache";
          ret (Some e)
      | Ok status =>
          if negb (SemanticDeepEqual status (Status cqObj)) then
            do err <- client_StatusUpdate (withStatus status cqObj);
            ret (IgnoreNotFound err)
          else ret None
      end
  end.

End Controller.

Arguments World C Q : clear implicits.

(** ** A cache and a queue manager to run the controller on

    Two small implementations of the collaborators' interfaces, used for the
    concrete runs only: the cache keeps usage and admitted count by queue
    name, the queue manager the pending count by queue name and the queue
    holding each pending workload (by workload name). *)

Definition SimpleCache : Type := gmap string (option (gmap string Z) * Z).

#[global] Instance SimpleCache_API : CacheAPI SimpleCache := {
  cache_AddClusterQueue c cq :=
    match c !! cq_Name cq with
    | Some _ => (c, Some (ErrOther "ClusterQueue already exists"))
    | None => (<[cq_Name cq := (None, 0)]> c, None)
    end;
  cache_UpdateClusterQueue c cq :=
    match c !! cq_Name cq with
    | Some _ => (c, None)
    | None => (c, Some (ErrOther "ClusterQueue not found"))
    end;
  cache_DeleteClusterQueue c cq := delete (cq_Name cq) c;
  cache_Usage c cq :=
    match c !! cq_Name cq with
    | Some (usage, n) => (usage, n, None)
    | None => (None, 0, Some (ErrOther "ClusterQueue not found"))
    end
}.

Record SimpleQueues := {
  sq_pending : gmap string Z;
  sq_owner : gmap string string
}.

#[global] Instance SimpleQueues_API : QueueManagerAPI SimpleQueues := {
  queue_AddClusterQueue q cq :=
    match sq_pending q !! cq_Name cq with
    | Some _ => (q, Some (ErrOther "ClusterQueue already exists"))
    | None => ({| sq_pending := <[cq_Name cq := 0]> (sq_pending q);
                  sq_owner := sq_owner q |}, None)
    end;
  queue_UpdateClusterQueue q cq :=
    match sq_pending q !! cq_Name cq with
    | Some _ => (q, None)
    | None => (q, Some (ErrOther "ClusterQueue not found"))
    end;
  queue_DeleteClusterQueue q cq :=
    {| sq_pending := delete (cq_Name cq) (sq_pending q); sq_owner := sq_owner q |};
  queue_Pending q cq := default 0 (sq_pending q !! cq_Name cq);
  queue_ClusterQueueForWorkload q w :=
    match sq_owner q !! wl_Name w with
    | Some name => (name, true)
    | None => ("", false)
    end
}.

Abbreviation SimpleWorld := (World SimpleCache SimpleQueues).

(** The error log lines of a call whose error is only logged. *)
Definition logged (err : option error) (msg : string) : list Event :=
  match err with
  | Some _ => [EvLogError msg]
  | None => []
  end.

(** The trace entries one iteration of the loop of
    [updateResourceFlavorReferences] records for the key [k], most recent
    first: the update call and, when it fails, its log line; or the log line
    of a flavor that was not listed. *)
Definition syncOneEvents (F : Faults) (name : string)
    (rfCache : gmap string ResourceFlavor) (deletion : bool) (k : string) : list Event :=
  match rfCache !! k with
  | Some rf =>
      logged (updateFault F (rf_Name rf)) "Fail to update resource flavor reference"
      ++ [EvUpdate (touch deletion name rf)]
  | None => [EvLogError "Cannot find resource flavor"]
  end.

(** The trace entries of the whole loop over the keys [ks]. *)
Fixpoint syncEvents (F : Faults) (name : string)
    (rfCache : gmap string ResourceFlavor) (deletion : bool) (ks : list string) : list Event :=
  match ks with
  | [] => []
  | k :: ks' =>
      syncEvents F name rfCache deletion ks' ++ syncOneEvents F name rfCache deletion k
  end.

(** The entries of the trace [t] recorded after the trace [t0] it extends. *)
Definition since (t0 t : list Event) : list Event :=
  take (length t - length t0) t.

(** A queue [name] whose resource groups list the flavors [fs], one group
    per inner list. *)
Definition queueWith (name : string) (groups : list (list string)) : ClusterQueue :=
  {| cq_Name := name;
     Spec := {| Resources :=
                  slice_of ((λ fs, {| resource_Name := "cpu";
                                      Flavors := slice_of ((λ f, {| flavor_Name := f; flavor_Quota := 1 |}) <$> fs) |})
                            <$> groups);
                Cohort := "" |};
     Status := emptyStatus |}.

(** Flavor [f] is referenced by the queues [cq] and [other], flavor [g] by
    no queue (its map is nil). *)
Definition twoFlavors : gmap string (option (gmap string string)) :=
  <["f" := Some (<["cq" := ""]> {["other" := ""]})]> (<["g" := None]> ∅).

Definition statusWith (pending : Z) : ClusterQueueStatus :=
  {| UsedResources := Some {["cpu" := 2]};
     PendingWorkloads := pending;
     AdmittedWorkloads := 1 |}.

(** A cluster in which queue [cq], persisted with status [st], is known to
    the cache (usage cpu:2, one admitted workload) and to the queue manager
    (three pending workloads, among them [job]). *)
Definition clusterWorld (st : ClusterQueueStatus) : SimpleWorld :=
  {| flavors := twoFlavors;
     queues := {["cq" := withStatus st (queueWith "cq" [["f"]])]};
     cache := {["cq" := (Some {["cpu" := 2]}, 1)]};
     qManager := {| sq_pending := {["cq" := 3]}; sq_owner := {["job" := "cq"]} |};
     trace := [] |}.

Definition persistFails (name : string) : Faults :=
  {| listFault := λ _, None;
     updateFault := λ n, if decide (n = name) then Some (ErrOther "update refused") else None;
     getFault := λ _, None; statusUpdateFault := λ _, None |}.

Definition listFailsAt (i : nat) : Faults :=
  {| listFault := λ n, if decide (n = i) then Some (ErrOther "list refused") else None;
     updateFault := λ _, None;
     getFault := λ _, None; statusUpdateFault := λ _, None |}.

Definition statusUpdateFails (e : error) : Faults :=
  {| listFault := λ _, None; updateFault := λ _, None;
     getFault := λ _, None; statusUpdateFault := λ _, Some e |}.

(** ** Properties of a synchronisation, to be stated of [updateReferences] *)

(** The referencing sets [after] a synchronisation of queue [name] from the
    flavor set [A] to the flavor set [B], against those [before]: among the
    flavors satisfying [P], those of [A − B] lost the name and those of
    [B − A] gained it; the flavors of [A ∩ B] are as before. *)
Definition SyncedWhere (P : string → Prop) (name : string) (A B : gset string)
    (before after : gmap string (option (gmap string string))) : Prop :=
  ∀ f refs, before !! f = Some refs →
    (f ∈ A ∖ B → P f → after !! f = Some (removeRef name refs))
    ∧ (f ∈ B ∖ A → P f → after !! f = Some (insertRef name refs))
    ∧ (f ∈ A ∩ B → after !! f = Some refs).

(** * Verification *)

(** ** The sets computed by [updateReferences] *)

Lemma flavorNames_inner (fs : list Flavor) (acc : gset string) (k : string) :
  k ∈ foldl (λ acc' f, {[flavor_Name f]} ∪ acc') acc fs
  ↔ k ∈ acc ∨ ∃ f, f ∈ fs ∧ flavor_Name f = k.
Proof.
  revert acc. induction fs as [|f fs IH]; intros acc; simpl.
  - split; [auto | intros [?|(f & Hf & _)]; [done | by apply elem_of_nil in Hf]].
  - rewrite IH. set_solver.
Qed.

Lemma flavorNames_outer (rs : list Resource) (acc : gset string) (k : string) :
  k ∈ foldl (λ acc res,
               foldl (λ acc' f, {[flavor_Name f]} ∪ acc') acc (items (Flavors res)))
            acc rs
  ↔ k ∈ acc ∨ ∃ res f, res ∈ rs ∧ f ∈ items (Flavors res) ∧ flavor_Name f = k.
Proof.
  revert acc. induction rs as [|r rs IH]; intros acc; simpl.
  - split; [auto | intros [?|(r & f & Hr & _)]; [done | by apply elem_of_nil in Hr]].
  - rewrite IH, flavorNames_inner. set_solver.
Qed.

(** [flavorNames] is the set of names found by flattening the flavor lists
    of all resource groups. *)
Lemma elem_of_flavorNames (rs : slice Resource) (k : string) :
  k ∈ flavorNames rs
  ↔ ∃ res f, res ∈ items rs ∧ f ∈ items (Flavors res) ∧ flavor_Name f = k.
Proof.
  unfold flavorNames. rewrite flavorNames_outer. split; [|auto].
  intros [H|H]; [by apply not_elem_of_empty in H | done].
Qed.

Lemma flavorNames_flatten (rs : slice Resource) :
  flavorNames rs
  = list_to_set (flavor_Name <$> concat ((λ res, items (Flavors res)) <$> items rs)).
Proof.
  apply set_eq. intros k. rewrite elem_of_flavorNames, elem_of_list_to_set, list_elem_of_fmap.
  split.
  - intros (res & f & Hres & Hf & <-). exists f. split; [done|].
    apply list_elem_of_In, in_concat. exists (items (Flavors res)).
    split; [|by apply list_elem_of_In].
    apply list_elem_of_In, list_elem_of_fmap. eauto.
  - intros (f & -> & Hf). apply list_elem_of_In, in_concat in Hf as (l & Hl & Hf).
    apply list_elem_of_In, list_elem_of_fmap in Hl as (res & -> & Hres).
    apply list_elem_of_In in Hf. eauto.
Qed.

Lemma missingFrom_fold (ys : gset string) (l : list string) (acc : gset string) (k : string) :
  k ∈ foldl (λ need k, if decide (k ∈ ys) then need else {[k]} ∪ need) acc l
  ↔ k ∈ acc ∨ (k ∈ l ∧ k ∉ ys).
Proof.
  revert acc. induction l as [|x l IH]; intros acc; simpl.
  - split; [auto | intros [?|[H _]]; [done | by apply elem_of_nil in H]].
  - rewrite IH. destruct (decide (x ∈ ys)); set_solver.
Qed.

(** [needRemove] is [old − new] and [needAdd] is [new − old]. *)
Lemma missingFrom_difference (xs ys : gset string) : missingFrom xs ys = xs ∖ ys.
Proof.
  apply set_eq. intros k. unfold missingFrom.
  rewrite missingFrom_fold, elem_of_difference, elem_of_elements.
  split; [intros [H|?]; [by apply not_elem_of_empty in H | done] | auto].
Qed.

(** ** The flavor list and the loop over the identifiers *)

Section ControllerProofs.

Context {C Q : Type} `{!CacheAPI C} `{!QueueManagerAPI Q}.
Variable F : Faults.

Implicit Types (w : World C Q) (cq : ClusterQueue) (k f : string).

Lemma rfCache_fold_lookup (l : list ResourceFlavor) (m : gmap string ResourceFlavor) k rf :
  NoDup (rf_Name <$> l) →
  foldl (λ m rf, <[rf_Name rf := rf]> m) m l !! k = Some rf
  ↔ (rf ∈ l ∧ rf_Name rf = k) ∨ ((k ∉ rf_Name <$> l) ∧ m !! k = Some rf).
Proof.
  revert m. induction l as [|x l IH]; intros m Hnd; simpl.
  - set_solver.
  - apply NoDup_cons in Hnd as [Hx Hnd]. rewrite (IH _ Hnd).
    destruct (decide (rf_Name x = k)) as [<-|Hne].
    + rewrite lookup_insert_eq. split.
      * intros [[Hin Hk]|[_ [= <-]]].
        -- exfalso. apply Hx. rewrite <- Hk. by apply list_elem_of_fmap_2.
        -- left. split; [apply list_elem_of_here | done].
      * intros [[Hin Hk]|[Hk _]]; [|set_solver].
        apply elem_of_cons in Hin as [->|Hin]; [by right|].
        exfalso. apply Hx. rewrite <- Hk. by apply list_elem_of_fmap_2.
    + rewrite lookup_insert_ne by done. set_solver.
Qed.

Lemma flavorItems_names (fl : gmap string (option (gmap string string))) :
  rf_Name <$> flavorItems fl = (map_to_list fl).*1.
Proof. unfold flavorItems. rewrite <- list_fmap_compose. done. Qed.

(** The cache built from a list result maps each name to the flavor of that
    name. *)
Lemma buildRfCache_lookup (fl : gmap string (option (gmap string string))) k :
  buildRfCache (flavorItems fl) !! k
  = (λ c, {| rf_Name := k; ClusterQueues := c |}) <$> fl !! k.
Proof.
  apply option_eq. intros rf. unfold buildRfCache.
  rewrite rfCache_fold_lookup
    by (rewrite flavorItems_names; apply NoDup_fst_map_to_list).
  rewrite lookup_empty, fmap_Some. unfold flavorItems. split.
  - intros [[Hin <-]|[_ ?]]; [|done].
    apply list_elem_of_fmap in Hin as ([n c] & -> & Hin).
    apply elem_of_map_to_list in Hin. eauto.
  - intros (c & Hc & ->). left. split; [|done].
    apply list_elem_of_fmap. exists (k, c). split; [done|].
    by apply elem_of_map_to_list.
Qed.

Lemma countEvents_app (p : Event → bool) (t1 t2 : list Event) :
  countEvents p (t1 ++ t2) = (countEvents p t1 + countEvents p t2)%nat.
Proof. induction t1 as [|e t1 IH]; simpl; [done|]. destruct (p e); lia. Qed.

Lemma countEvents_none (p : Event → bool) (t : list Event) :
  Forall (λ e, p e = false) t → countEvents p t = O.
Proof. induction 1 as [|e t He _ IH]; simpl; [done|]. by rewrite He. Qed.

(** What one iteration of the loop does. *)
Lemma syncOne_spec cq (rfCache : gmap string ResourceFlavor) (deletion : bool) k w :
  let w' := (syncOne F cq rfCache deletion k w).2 in
  flavors w' =
    match rfCache !! k with
    | Some rf =>
        match updateFault F (rf_Name rf) with
        | Some _ => flavors w
        | None => <[rf_Name rf := touchRefs deletion (cq_Name cq) (ClusterQueues rf)]> (flavors w)
        end
    | None => flavors w
    end
  ∧ queues w' = queues w ∧ cache w' = cache w ∧ qManager w' = qManager w
  ∧ ∃ evs, trace w' = evs ++ trace w
      ∧ Forall (λ e, isList e = false) evs
      ∧ ∀ rf', EvUpdate rf' ∈ evs
               ↔ ∃ rf, rfCache !! k = Some rf ∧ rf' = touch deletion (cq_Name cq) rf.
Proof.
  unfold syncOne. destruct (rfCache !! k) as [rf|] eqn:Hk; simpl.
  - unfold bind, client_Update. simpl.
    destruct (updateFault F (rf_Name rf)) as [e|] eqn:Hf; simpl.
    + repeat split; try done.
      exists [EvLogError "Fail to update resource flavor reference";
              EvUpdate (touch deletion (cq_Name cq) rf)].
      repeat split; [by repeat constructor | set_solver | set_solver].
    + repeat split; try done.
      exists [EvUpdate (touch deletion (cq_Name cq) rf)].
      repeat split; [by repeat constructor | set_solver | set_solver].
  - repeat split; try done.
    exists [EvLogError "Cannot find resource flavor"].
    repeat split; [by repeat constructor | set_solver | set_solver].
Qed.

Lemma forRange_cons {S K} (k : K) (ks : list K) (body : K → State S unit) (s : S) :
  forRange (k :: ks) body s = forRange ks body (body k s).2.
Proof. cbn [forRange]. unfold bind. by destruct (body k s). Qed.

(** The whole loop, over distinct keys in any order: a flavor is rewritten
    when it is one of the keys, it was listed and its persist succeeds. *)
Lemma forRange_syncOne_spec cq (rfCache : gmap string ResourceFlavor) (deletion : bool)
    (ks : list string) w :
  NoDup ks →
  (∀ k rf, rfCache !! k = Some rf → rf_Name rf = k) →
  let w' := (forRange ks (syncOne F cq rfCache deletion) w).2 in
  (∀ f, flavors w' !! f =
        match rfCache !! f with
        | Some rf =>
            if decide (f ∈ ks ∧ updateFault F f = None)
            then Some (touchRefs deletion (cq_Name cq) (ClusterQueues rf))
            else flavors w !! f
        | None => flavors w !! f
        end)
  ∧ queues w' = queues w ∧ cache w' = cache w ∧ qManager w' = qManager w
  ∧ ∃ evs, trace w' = evs ++ trace w
      ∧ Forall (λ e, isList e = false) evs
      ∧ ∀ rf', EvUpdate rf' ∈ evs
               ↔ ∃ k rf, k ∈ ks ∧ rfCache !! k = Some rf
                         ∧ rf' = touch deletion (cq_Name cq) rf.
Proof.
  intros Hnd Hnames. revert w. induction Hnd as [|k ks Hk Hnd IH]; intros w.
  - simpl. repeat split; try done.
    + intros f. by destruct (rfCache !! f).
    + exists []. repeat split; [done | set_solver | set_solver].
  - rewrite forRange_cons.
    pose proof (syncOne_spec cq rfCache deletion k w) as Hone.
    cbv zeta in Hone. set (w1 := (syncOne F cq rfCache deletion k w).2) in *.
    clearbody w1. cbv zeta.
    destruct Hone as (Hfl & Hq & Hc & Hm & evs1 & Ht1 & Hl1 & Hu1).
    specialize (IH w1). cbv zeta in IH.
    destruct IH as (IHfl & IHq & IHc & IHm & evs & Ht & Hl & Hu).
    repeat split; try congruence.
    + intros f. rewrite IHfl, Hfl.
      destruct (rfCache !! f) as [rf|] eqn:Hf.
      * pose proof (Hnames _ _ Hf) as Hrf.
        destruct (decide (f = k)) as [->|Hne].
        -- rewrite Hf, Hrf.
           rewrite (decide_False (P := k ∈ ks ∧ _)) by (intros [? _]; done).
           destruct (updateFault F k) eqn:Hfault.
           ++ rewrite decide_False; [done | intros [_ ?]; done].
           ++ rewrite decide_True by (split; [apply list_elem_of_here | done]).
              by rewrite lookup_insert_eq.
        -- assert (flavors w1 !! f = flavors w !! f) as Hsame.
           { rewrite Hfl. destruct (rfCache !! k) as [rfk|] eqn:Hrk; [|done].
             rewrite (Hnames _ _ Hrk).
             destruct (updateFault F k); [done|]. by rewrite lookup_insert_ne. }
           rewrite Hfl in Hsame. rewrite Hsame.
           destruct (decide (f ∈ ks ∧ updateFault F f = None)) as [[? ?]|Hno].
           ++ rewrite decide_True; [done | split; [by apply list_elem_of_further | done]].
           ++ rewrite decide_False; [done|].
              intros [Hin ?]. apply Hno. split; [|done].
              apply elem_of_cons in Hin as [?|?]; done.
      * destruct (rfCache !! k) as [rfk|] eqn:Hrk; [|done].
        rewrite (Hnames _ _ Hrk).
        destruct (updateFault F k); [done|].
        rewrite lookup_insert_ne; [done | congruence].
    + exists (evs ++ evs1).
      split; [rewrite Ht, Ht1; apply (assoc_L (++)) |].
      split; [by apply Forall_app | split].
      * intros Hin. apply elem_of_app in Hin as [Hin|Hin].
        -- apply Hu in Hin as (k' & rf & ? & ? & ?).
           exists k', rf. split; [by apply list_elem_of_further | done].
        -- apply Hu1 in Hin as (rf & ? & ?).
           exists k, rf. split; [apply list_elem_of_here | done].
      * intros (k' & rf & Hin & Hrf & ->). apply elem_of_app.
        apply elem_of_cons in Hin as [->|Hin].
        -- right. apply Hu1. eauto.
        -- left. apply Hu. eauto.
Qed.

(** Go leaves the iteration order of a map unspecified: the flavors persisted
    by the loop do not depend on it. *)
Lemma forRange_syncOne_order cq (rfCache : gmap string ResourceFlavor) (deletion : bool)
    (ks1 ks2 : list string) w :
  NoDup ks1 → ks1 ≡ₚ ks2 →
  (∀ k rf, rfCache !! k = Some rf → rf_Name rf = k) →
  flavors (forRange ks1 (syncOne F cq rfCache deletion) w).2
  = flavors (forRange ks2 (syncOne F cq rfCache deletion) w).2.
Proof.
  intros Hnd Hperm Hnames. apply map_eq. intros f.
  destruct (forRange_syncOne_spec cq rfCache deletion ks1 w Hnd Hnames) as [-> _].
  destruct (forRange_syncOne_spec cq rfCache deletion ks2 w) as [-> _];
    [by rewrite <- Hperm | done |].
  destruct (rfCache !! f); [|done].
  destruct (decide (f ∈ ks1 ∧ _)) as [[Hin ?]|Hno].
  - rewrite decide_True; [done | by rewrite <- Hperm].
  - rewrite decide_False; [done|]. by rewrite <- Hperm.
Qed.

Lemma updateResourceFlavorReferences_fails cq (objs : gset string) (deletion : bool) w e :
  listFault F (listCalls (trace w)) = Some e →
  updateResourceFlavorReferences F cq objs deletion w = (Some e, record EvList w).
Proof.
  intros He. unfold updateResourceFlavorReferences, bind, client_List.
  by rewrite He.
Qed.

(** One phase whose list call succeeds. *)
Lemma updateResourceFlavorReferences_ok cq (objs : gset string) (deletion : bool) w :
  listFault F (listCalls (trace w)) = None →
  let r := updateResourceFlavorReferences F cq objs deletion w in
  r.1 = None
  ∧ (∀ f, flavors r.2 !! f =
          (λ c, if decide (f ∈ objs ∧ updateFault F f = None)
                then touchRefs deletion (cq_Name cq) c else c) <$> flavors w !! f)
  ∧ queues r.2 = queues w ∧ cache r.2 = cache w ∧ qManager r.2 = qManager w
  ∧ ∃ evs, trace r.2 = evs ++ EvList :: trace w
      ∧ Forall (λ e, isList e = false) evs
      ∧ ∀ rf', EvUpdate rf' ∈ evs
               ↔ ∃ k c, k ∈ objs ∧ flavors w !! k = Some c
                        ∧ rf' = {| rf_Name := k;
                                   ClusterQueues := touchRefs deletion (cq_Name cq) c |}.
Proof.
  intros Hok. unfold updateResourceFlavorReferences, bind, client_List.
  rewrite Hok.
  pose proof (forRange_syncOne_spec cq (buildRfCache (flavorItems (flavors w)))
                deletion (elements objs) (record EvList w)) as Hloop.
  destruct (forRange (elements objs) _ (record EvList w)) as [[] w1].
  unfold ret, record in *. cbn [fst snd flavors queues cache qManager trace] in *.
  destruct Hloop as (Hfl & Hq & Hc & Hm & evs & Ht & Hl & Hu).
  { apply NoDup_elements. }
  { intros k rf. rewrite buildRfCache_lookup, fmap_Some.
    by intros (c & _ & ->). }
  repeat split; try done.
  - intros f. rewrite Hfl, buildRfCache_lookup.
    destruct (flavors w !! f) as [c|]; simpl; [|done].
    destruct (decide (f ∈ elements objs ∧ updateFault F f = None)) as [[Hin ?]|Hno].
    + rewrite decide_True; [done | split; [by apply elem_of_elements | done]].
    + rewrite decide_False; [done|].
      intros [Hin ?]. apply Hno. split; [by apply elem_of_elements | done].
  - exists evs. repeat split; try done.
    + intros Hin. apply Hu in Hin as (k & rf & Hk & Hrf & ->).
      rewrite buildRfCache_lookup, fmap_Some in Hrf. destruct Hrf as (c & Hc' & ->).
      exists k, c. by rewrite elem_of_elements in Hk.
    + intros (k & c & Hk & Hc' & ->). apply Hu.
      exists k, {| rf_Name := k; ClusterQueues := c |}.
      rewrite buildRfCache_lookup, Hc', elem_of_elements. done.
Qed.

(** ** Reference synchronisation as two phases *)

Lemma updateReferences_phases (oldCQ cq : ClusterQueue) w :
  updateReferences F oldCQ cq w =
  let r1 := updateResourceFlavorReferences F cq
              (referencedFlavors oldCQ ∖ referencedFlavors cq) true w in
  match r1.1 with
  | Some e => (Some e, r1.2)
  | None =>
      updateResourceFlavorReferences F cq
        (referencedFlavors cq ∖ referencedFlavors oldCQ) false r1.2
  end.
Proof.
  unfold updateReferences, referencedFlavors, bind. rewrite !missingFrom_difference.
  cbv zeta.
  destruct (updateResourceFlavorReferences F cq _ true w) as [[e|] w1]; [done|].
  cbn [fst snd].
  by destruct (updateResourceFlavorReferences F cq _ false w1) as [[e|] w2].
Qed.

Lemma listCalls_after_phase (evs t : list Event) :
  Forall (λ e, isList e = false) evs →
  listCalls (evs ++ EvList :: t) = S (listCalls t).
Proof.
  intros Hevs. unfold listCalls. rewrite countEvents_app, countEvents_none by done. done.
Qed.

(** The first list call fails: nothing else happens. *)
Lemma updateReferences_first_list_fails (oldCQ cq : ClusterQueue) w e :
  listFault F (listCalls (trace w)) = Some e →
  updateReferences F oldCQ cq w = (Some e, record EvList w).
Proof.
  intros He. rewrite updateReferences_phases. cbv zeta.
  by rewrite (updateResourceFlavorReferences_fails _ _ _ _ _ He).
Qed.

(** The first list call succeeds and the second fails: the removals have
    been applied, the additions have not. *)
Lemma updateReferences_second_list_fails (oldCQ cq : ClusterQueue) w e :
  listFault F (listCalls (trace w)) = None →
  listFault F (S (listCalls (trace w))) = Some e →
  let r := updateReferences F oldCQ cq w in
  r.1 = Some e
  ∧ (∀ f, flavors r.2 !! f =
          (λ c, if decide (f ∈ referencedFlavors oldCQ ∖ referencedFlavors cq
                           ∧ updateFault F f = None)
                then removeRef (cq_Name cq) c else c) <$> flavors w !! f)
  ∧ queues r.2 = queues w ∧ cache r.2 = cache w ∧ qManager r.2 = qManager w
  ∧ ∃ evs, trace r.2 = EvList :: evs ++ EvList :: trace w
      ∧ Forall (λ e, isList e = false) evs
      ∧ ∀ rf', EvUpdate rf' ∈ evs
               ↔ ∃ k c, k ∈ referencedFlavors oldCQ ∖ referencedFlavors cq
                        ∧ flavors w !! k = Some c
                        ∧ rf' = {| rf_Name := k; ClusterQueues := removeRef (cq_Name cq) c |}.
Proof.
  intros H1 H2. rewrite updateReferences_phases. cbv zeta.
  pose proof (updateResourceFlavorReferences_ok cq
    (referencedFlavors oldCQ ∖ referencedFlavors cq) true w H1) as Hp.
  cbv zeta in Hp.
  destruct (updateResourceFlavorReferences F cq _ true w) as [r1 w1].
  cbn [fst snd] in *.
  destruct Hp as (-> & Hfl & Hq & Hc & Hm & evs & Ht & Hl & Hu).
  rewrite (updateResourceFlavorReferences_fails _ _ _ _ e)
    by (by rewrite Ht, listCalls_after_phase).
  unfold record. cbn [fst snd flavors queues cache qManager trace].
  repeat split; try done.
  exists evs. by rewrite Ht.
Qed.

(** Both list calls succeed. *)
Lemma updateReferences_lists_ok (oldCQ cq : ClusterQueue) w :
  listFault F (listCalls (trace w)) = None →
  listFault F (S (listCalls (trace w))) = None →
  let r := updateReferences F oldCQ cq w in
  let A := referencedFlavors oldCQ in
  let B := referencedFlavors cq in
  r.1 = None
  ∧ (∀ f, flavors r.2 !! f =
          (λ c, if decide (f ∈ A ∖ B ∧ updateFault F f = None)
                then removeRef (cq_Name cq) c
                else if decide (f ∈ B ∖ A ∧ updateFault F f = None)
                     then insertRef (cq_Name cq) c else c) <$> flavors w !! f)
  ∧ queues r.2 = queues w ∧ cache r.2 = cache w ∧ qManager r.2 = qManager w
  ∧ ∃ evs1 evs2, trace r.2 = evs2 ++ EvList :: evs1 ++ EvList :: trace w
      ∧ Forall (λ e, isList e = false) evs1
      ∧ Forall (λ e, isList e = false) evs2
      ∧ (∀ rf', EvUpdate rf' ∈ evs1
                ↔ ∃ k c, k ∈ A ∖ B ∧ flavors w !! k = Some c
                         ∧ rf' = {| rf_Name := k; ClusterQueues := removeRef (cq_Name cq) c |})
      ∧ (∀ k c, k ∈ B ∖ A → flavors w !! k = Some c →
                EvUpdate {| rf_Name := k; ClusterQueues := insertRef (cq_Name cq) c |} ∈ evs2).
Proof.
  intros H1 H2. rewrite updateReferences_phases. cbv zeta.
  pose proof (updateResourceFlavorReferences_ok cq
    (referencedFlavors oldCQ ∖ referencedFlavors cq) true w H1) as Hp.
  cbv zeta in Hp.
  destruct (updateResourceFlavorReferences F cq _ true w) as [r1 w1].
  cbn [fst snd] in *.
  destruct Hp as (-> & Hfl & Hq & Hc & Hm & evs1 & Ht & Hl & Hu).
  assert (listFault F (listCalls (trace w1)) = None) as H2'
    by (by rewrite Ht, listCalls_after_phase).
  pose proof (updateResourceFlavorReferences_ok cq
    (referencedFlavors cq ∖ referencedFlavors oldCQ) false w1 H2') as Hp.
  cbv zeta in Hp.
  destruct (updateResourceFlavorReferences F cq _ false w1) as [r2 w2].
  cbn [fst snd] in *.
  destruct Hp as (-> & Hfl2 & Hq2 & Hc2 & Hm2 & evs2 & Ht2 & Hl2 & Hu2).
  repeat split; try congruence.
  - intros f. rewrite Hfl2, Hfl. destruct (flavors w !! f) as [c|]; [|done].
    cbn [fmap option_fmap option_map]. f_equal.
    destruct (decide (f ∈ referencedFlavors oldCQ ∖ referencedFlavors cq
                      ∧ updateFault F f = None)) as [[Hin ?]|Hno].
    + rewrite decide_False; [done|]. intros [Hin' _]. set_solver.
    + done.
  - exists evs1, evs2. rewrite Ht2, Ht. repeat split; try done.
    + by intros ?%Hu.
    + by intros ?%Hu.
    + intros k c Hk Hc'. apply Hu2. exists k, c. split; [done|]. split; [|done].
      rewrite Hfl, Hc'. cbn [fmap option_fmap option_map].
      rewrite decide_False; [done|]. intros [Hin' _]. set_solver.
Qed.

End ControllerProofs.

Section SynchronisationClaims.

Context {C Q : Type} `{!CacheAPI C} `{!QueueManagerAPI Q}.
Variable F : Faults.

Implicit Types (w : World C Q) (oldCQ cq : ClusterQueue) (k f : string).

Lemma refLookup_removeRef (name q : string) (refs : option (gmap string string)) :
  q ≠ name → refLookup (removeRef name refs) q = refLookup refs q.
Proof.
  intros Hq. destruct refs as [m|]; [|done]. cbn. by rewrite lookup_delete_ne.
Qed.

Lemma refLookup_insertRef (name q : string) (refs : option (gmap string string)) :
  q ≠ name → refLookup (insertRef name refs) q = refLookup refs q.
Proof.
  intros Hq. destruct refs as [m|]; cbn; by rewrite lookup_insert_ne.
Qed.

Lemma refLookup_removeRef_eq (name : string) (refs : option (gmap string string)) :
  refLookup (removeRef name refs) name = None.
Proof. destruct refs as [m|]; [|done]. cbn. by rewrite lookup_delete_eq. Qed.

Lemma refLookup_insertRef_eq (name : string) (refs : option (gmap string string)) :
  refLookup (insertRef name refs) name = Some "".
Proof. destruct refs as [m|]; cbn; by rewrite lookup_insert_eq. Qed.

(** Whatever fails, a flavor is left as it was, or it is in [A − B] and lost
    the name, or it is in [B − A] and gained it. *)
Lemma updateReferences_flavor_cases oldCQ cq w f :
  let r := updateReferences F oldCQ cq w in
  let A := referencedFlavors oldCQ in
  let B := referencedFlavors cq in
  flavors r.2 !! f = flavors w !! f
  ∨ (f ∈ A ∖ B ∧ flavors r.2 !! f = removeRef (cq_Name cq) <$> flavors w !! f)
  ∨ (f ∈ B ∖ A ∧ flavors r.2 !! f = insertRef (cq_Name cq) <$> flavors w !! f).
Proof.
  cbv zeta.
  destruct (listFault F (listCalls (trace w))) as [e|] eqn:H1.
  { rewrite (updateReferences_first_list_fails F oldCQ cq w e H1). by left. }
  destruct (listFault F (S (listCalls (trace w)))) as [e|] eqn:H2.
  - destruct (updateReferences_second_list_fails F oldCQ cq w e H1 H2)
      as (_ & Hfl & _).
    rewrite Hfl. destruct (flavors w !! f) as [c|]; [|by left]. cbn.
    destruct (decide _) as [[? _]|_]; [right; left | left]; done.
  - destruct (updateReferences_lists_ok F oldCQ cq w H1 H2) as (_ & Hfl & _).
    rewrite Hfl. destruct (flavors w !! f) as [c|]; [|by left]. cbn.
    destruct (decide _) as [[? _]|_]; [by right; left|].
    destruct (decide _) as [[? _]|_]; [by right; right | by left].
Qed.

Lemma updateReferences_result oldCQ cq w :
  (updateReferences F oldCQ cq w).1 =
  match listFault F (listCalls (trace w)) with
  | Some e => Some e
  | None => listFault F (S (listCalls (trace w)))
  end.
Proof.
  destruct (listFault F (listCalls (trace w))) as [e|] eqn:H1.
  { by rewrite (updateReferences_first_list_fails F oldCQ cq w e H1). }
  destruct (listFault F (S (listCalls (trace w)))) as [e|] eqn:H2.
  - by destruct (updateReferences_second_list_fails F oldCQ cq w e H1 H2) as (-> & _).
  - by destruct (updateReferences_lists_ok F oldCQ cq w H1 H2) as (-> & _).
Qed.

(** The collaborators are not touched by a synchronisation. *)
Lemma updateReferences_frame oldCQ cq w :
  let r := updateReferences F oldCQ cq w in
  queues r.2 = queues w ∧ cache r.2 = cache w ∧ qManager r.2 = qManager w.
Proof.
  cbv zeta.
  destruct (listFault F (listCalls (trace w))) as [e|] eqn:H1.
  { by rewrite (updateReferences_first_list_fails F oldCQ cq w e H1). }
  destruct (listFault F (S (listCalls (trace w)))) as [e|] eqn:H2.
  - by destruct (updateReferences_second_list_fails F oldCQ cq w e H1 H2)
      as (_ & _ & ? & ? & ? & _).
  - by destruct (updateReferences_lists_ok F oldCQ cq w H1 H2)
      as (_ & _ & ? & ? & ? & _).
Qed.

(** C1 (amended): for every old and new spec with flavor sets A and B,
    provided both flavor list calls of the synchronisation succeed, every
    existing flavor of A−B whose persist succeeds has lost the queue's name,
    every existing flavor of B−A whose persist succeeds has gained it, and
    the flavors of A∩B are unmodified; the synchronisation then reports
    success, also when persists failed.  Whatever fails, the flavors of A∩B
    are unmodified and a flavor whose persist fails keeps its persisted
    referencing set. *)
Theorem C1_reference_symmetric_difference oldCQ cq w :
  let r := updateReferences F oldCQ cq w in
  let A := referencedFlavors oldCQ in
  let B := referencedFlavors cq in
  (∀ f, f ∈ A ∩ B → flavors r.2 !! f = flavors w !! f)
  ∧ (∀ f, updateFault F f ≠ None → flavors r.2 !! f = flavors w !! f)
  ∧ (listFault F (listCalls (trace w)) = None →
     listFault F (S (listCalls (trace w))) = None →
     r.1 = None
     ∧ SyncedWhere (λ f, updateFault F f = None) (cq_Name cq) A B
         (flavors w) (flavors r.2)).
Proof.
  cbv zeta. split; [|split].
  - intros f Hf.
    destruct (updateReferences_flavor_cases oldCQ cq w f) as [?|[[? _]|[? _]]];
      [done | set_solver | set_solver].
  - intros f Hfail.
    destruct (listFault F (listCalls (trace w))) as [e|] eqn:H1.
    { by rewrite (updateReferences_first_list_fails F oldCQ cq w e H1). }
    destruct (listFault F (S (listCalls (trace w)))) as [e|] eqn:H2.
    + destruct (updateReferences_second_list_fails F oldCQ cq w e H1 H2)
        as (_ & Hfl & _).
      rewrite Hfl. destruct (flavors w !! f) as [c|]; [|done]. cbn.
      rewrite decide_False; [done | by intros [_ ?]].
    + destruct (updateReferences_lists_ok F oldCQ cq w H1 H2) as (_ & Hfl & _).
      rewrite Hfl. destruct (flavors w !! f) as [c|]; [|done]. cbn.
      rewrite !decide_False; [done | by intros [_ ?] | by intros [_ ?]].
  - intros H1 H2.
    destruct (updateReferences_lists_ok F oldCQ cq w H1 H2) as (Hr & Hfl & _).
    split; [done|]. intros f refs Hrefs. rewrite Hfl, Hrefs. cbn.
    repeat split.
    + intros Hin Hok. by rewrite decide_True.
    + intros Hin Hok. rewrite decide_False by set_solver. by rewrite decide_True.
    + intros Hin. rewrite !decide_False by set_solver. done.
Qed.

(** C2 (amended): a persist failure neither aborts the processing of the
    other identifiers nor makes the synchronisation fail; the
    synchronisation fails exactly when one of its two flavor list calls
    fails.  When the first one fails nothing has been applied; when the
    second one fails the removals have been applied and no addition has. *)
Theorem C2_synchronisation_failures oldCQ cq w :
  let r := updateReferences F oldCQ cq w in
  let n := listCalls (trace w) in
  let A := referencedFlavors oldCQ in
  let B := referencedFlavors cq in
  r.1 = match listFault F n with
        | Some e => Some e
        | None => listFault F (S n)
        end
  ∧ (listFault F n ≠ None → r.2 = record EvList w)
  ∧ (listFault F n = None → listFault F (S n) ≠ None →
     ∀ f, flavors r.2 !! f =
          (λ c, if decide (f ∈ A ∖ B ∧ updateFault F f = None)
                then removeRef (cq_Name cq) c else c) <$> flavors w !! f)
  ∧ (listFault F n = None →
     ∀ k c, k ∈ A ∖ B → flavors w !! k = Some c →
            EvUpdate {| rf_Name := k; ClusterQueues := removeRef (cq_Name cq) c |}
              ∈ trace r.2)
  ∧ (listFault F n = None → listFault F (S n) = None →
     ∀ k c, k ∈ B ∖ A → flavors w !! k = Some c →
            EvUpdate {| rf_Name := k; ClusterQueues := insertRef (cq_Name cq) c |}
              ∈ trace r.2).
Proof.
  cbv zeta. split; [apply updateReferences_result|].
  destruct (listFault F (listCalls (trace w))) as [e|] eqn:H1.
  { rewrite (updateReferences_first_list_fails F oldCQ cq w e H1).
    repeat split; done. }
  split; [done|].
  destruct (listFault F (S (listCalls (trace w)))) as [e|] eqn:H2.
  - destruct (updateReferences_second_list_fails F oldCQ cq w e H1 H2)
      as (_ & Hfl & _ & _ & _ & evs & Ht & _ & Hu).
    repeat split; [done | | done].
    intros _ k c Hk Hc. rewrite Ht. apply list_elem_of_further, elem_of_app. left.
    apply Hu. eauto.
  - destruct (updateReferences_lists_ok F oldCQ cq w H1 H2)
      as (_ & _ & _ & _ & _ & evs1 & evs2 & Ht & _ & _ & Hu1 & Hu2).
    repeat split; [done | |].
    + intros _ k c Hk Hc. rewrite Ht.
      apply elem_of_app. right. apply list_elem_of_further, elem_of_app. left.
      apply Hu1. eauto.
    + intros _ _ k c Hk Hc. rewrite Ht. apply elem_of_app. left. eauto.
Qed.

(** C3 (amended): whatever the sets of identifiers, the flavors are listed
    once per phase and never once per identifier: one list call when the
    first one fails, two list calls otherwise. *)
Theorem C3_list_calls oldCQ cq w :
  listCalls (trace (updateReferences F oldCQ cq w).2) =
  (listCalls (trace w)
   + match listFault F (listCalls (trace w)) with
     | Some _ => 1
     | None => 2
     end)%nat.
Proof.
  destruct (listFault F (listCalls (trace w))) as [e|] eqn:H1.
  { rewrite (updateReferences_first_list_fails F oldCQ cq w e H1).
    unfold listCalls, record. cbn [snd trace countEvents isList]. lia. }
  destruct (listFault F (S (listCalls (trace w)))) as [e|] eqn:H2.
  - destruct (updateReferences_second_list_fails F oldCQ cq w e H1 H2)
      as (_ & _ & _ & _ & _ & evs & -> & Hl & _).
    change (listCalls (EvList :: ?t)) with (S (listCalls t)).
    rewrite listCalls_after_phase by done. lia.
  - destruct (updateReferences_lists_ok F oldCQ cq w H1 H2)
      as (_ & _ & _ & _ & _ & evs1 & evs2 & -> & Hl1 & Hl2 & _).
    rewrite !listCalls_after_phase by done. lia.
Qed.

(** C9: in every flavor, a synchronisation of queue [cq] adds or removes
    only the entry keyed by the name of [cq]: the entries of all other queue
    names are unchanged, and no flavor is created or deleted. *)
Theorem C9_other_references_unchanged oldCQ cq w f q :
  q ≠ cq_Name cq →
  let r := updateReferences F oldCQ cq w in
  (is_Some (flavors r.2 !! f) ↔ is_Some (flavors w !! f))
  ∧ ∀ refs refs', flavors w !! f = Some refs → flavors r.2 !! f = Some refs' →
                  refLookup refs' q = refLookup refs q.
Proof.
  intros Hq. cbv zeta.
  destruct (updateReferences_flavor_cases oldCQ cq w f) as [Hf|[[_ Hf]|[_ Hf]]];
    rewrite Hf.
  - split; [done|]. intros refs refs' -> [= ->]. done.
  - split; [by rewrite fmap_is_Some|]. intros refs refs' -> [= <-].
    by apply refLookup_removeRef.
  - split; [by rewrite fmap_is_Some|]. intros refs refs' -> [= <-].
    by apply refLookup_insertRef.
Qed.

End SynchronisationClaims.

Section PredicateClaims.

Context {C Q : Type} `{!CacheAPI C} `{!QueueManagerAPI Q}.
Variable F : Faults.
Variable UpdatesBatchPeriod : Z.

Implicit Types (w : World C Q) (cq : ClusterQueue).

Lemma logIfError_run (err : option error) (msg : string) w :
  logIfError err msg w
  = (tt, {| flavors := flavors w; queues := queues w; cache := cache w;
            qManager := qManager w; trace := logged err msg ++ trace w |}).
Proof. destruct err; [done|]. by destruct w. Qed.

(** C4 (amended): on a delete notification of a queue, when the reference
    synchronisation succeeds the queue is removed from the cache and from
    the queue manager (these calls cannot fail) and the predicate returns
    true; when the synchronisation fails the predicate returns false at
    once, and neither the cache nor the queue manager is called. *)
Theorem C4_delete_predicate cq w :
  let newCq := {| cq_Name := cq_Name cq; Spec := emptySpec; Status := Status cq |} in
  let s := updateReferences F cq newCq w in
  let r := Delete F (ObjClusterQueue cq) w in
  match s.1 with
  | Some _ =>
      r.1 = false
      ∧ cache r.2 = cache w ∧ qManager r.2 = qManager w
      ∧ trace r.2 = EvLogError "Fail to remove resource flavor reference" :: trace s.2
  | None =>
      r.1 = true
      ∧ cache r.2 = cache_DeleteClusterQueue (cache w) cq
      ∧ qManager r.2 = queue_DeleteClusterQueue (qManager w) cq
      ∧ trace r.2 = EvQueueDelete cq :: EvCacheDelete cq :: trace s.2
  end.
Proof.
  cbv zeta. unfold Delete, bind.
  pose proof (updateReferences_frame F cq
    {| cq_Name := cq_Name cq; Spec := emptySpec; Status := Status cq |} w) as Hfr.
  cbv zeta in Hfr.
  destruct (updateReferences F cq _ w) as [[e|] w1]; cbn in *;
    destruct Hfr as (_ & <- & <-); done.
Qed.

(** C5: on a create notification of a queue, the predicate returns false
    exactly when the reference synchronisation fails, and then the cache and
    the queue manager have not been called; when the synchronisation
    succeeds the predicate returns true whether or not the additions to the
    cache and to the queue manager fail, their failures being logged. *)
Theorem C5_create_predicate cq w :
  let s := updateReferences F emptyClusterQueue cq w in
  let r := Create F (ObjClusterQueue cq) w in
  match s.1 with
  | Some _ =>
      r.1 = false
      ∧ cache r.2 = cache w ∧ qManager r.2 = qManager w
      ∧ trace r.2 = EvLogError "Failed to update resource flavor reference" :: trace s.2
  | None =>
      let c := cache_AddClusterQueue (cache w) cq in
      let q := queue_AddClusterQueue (qManager w) cq in
      r.1 = true
      ∧ cache r.2 = c.1 ∧ qManager r.2 = q.1
      ∧ trace r.2 =
          logged q.2 "Failed to add clusterQueue to queue manager"
          ++ EvQueueAdd cq
          :: logged c.2 "Failed to add clusterQueue to cache"
          ++ EvCacheAdd cq :: trace s.2
  end.
Proof.
  cbv zeta. unfold Create, bind.
  pose proof (updateReferences_frame F emptyClusterQueue cq w) as Hfr.
  cbv zeta in Hfr.
  destruct (updateReferences F emptyClusterQueue cq w) as [[e|] w1]; cbn in *;
    destruct Hfr as (_ & <- & <-); [done|].
  unfold cacheAdd, queueAdd.
  destruct (cache_AddClusterQueue (cache w1) cq) as [c err1].
  rewrite logIfError_run. cbn.
  destruct (queue_AddClusterQueue (qManager w1) cq) as [q err2].
  rewrite logIfError_run. cbn. done.
Qed.

(** C10: on an update notification whose new object is a queue and whose
    old object is not, the predicate makes no reference synchronisation (no
    list call, no flavor written), calls the updates of the cache and of the
    queue manager with the new object, and returns true. *)
Theorem C10_update_old_not_a_queue (objOld : Object) cq w :
  (∀ oldCQ, objOld ≠ ObjClusterQueue oldCQ) →
  let r := Update F objOld (ObjClusterQueue cq) w in
  let c := cache_UpdateClusterQueue (cache w) cq in
  let q := queue_UpdateClusterQueue (qManager w) cq in
  r.1 = true
  ∧ flavors r.2 = flavors w
  ∧ cache r.2 = c.1 ∧ qManager r.2 = q.1
  ∧ trace r.2 =
      logged q.2 "Failed to update clusterQueue in queue manager"
      ++ EvQueueUpdate cq
      :: logged c.2 "Failed to update clusterQueue in cache"
      ++ EvCacheUpdate cq :: trace w.
Proof.
  intros Hold. cbv zeta. unfold Update, bind.
  assert (resourcesChanged objOld cq = None) as ->.
  { destruct objOld as [oldCQ| | |]; try done. by destruct (Hold oldCQ). }
  unfold ret, cacheUpdate, queueUpdate.
  destruct (cache_UpdateClusterQueue (cache w) cq) as [c err1].
  rewrite logIfError_run. cbn.
  destruct (queue_UpdateClusterQueue (qManager w) cq) as [q err2].
  rewrite logIfError_run. cbn. done.
Qed.

(** C8: the workload handler enqueues, after the batch period, a request
    for the queue of the admission record when the workload has one, else
    for the queue the queue manager reports for the workload, and enqueues
    nothing when the queue manager reports none. *)
Theorem C8_workload_request (qm : Q) (wl : Workload) (q : WorkQueue) :
  (∀ adm, wl_Admission wl = Some adm →
     cqWorkloadHandler_Generic UpdatesBatchPeriod qm (ObjWorkload wl) q
     = Some (({| req_Namespace := ""; req_Name := adm_ClusterQueue adm |},
              UpdatesBatchPeriod) :: q))
  ∧ (∀ name, wl_Admission wl = None →
       queue_ClusterQueueForWorkload qm wl = (name, true) →
       cqWorkloadHandler_Generic UpdatesBatchPeriod qm (ObjWorkload wl) q
       = Some (({| req_Namespace := ""; req_Name := name |}, UpdatesBatchPeriod) :: q))
  ∧ (wl_Admission wl = None →
     (queue_ClusterQueueForWorkload qm wl).2 = false →
     cqWorkloadHandler_Generic UpdatesBatchPeriod qm (ObjWorkload wl) q = Some q).
Proof.
  unfold cqWorkloadHandler_Generic, requestForWorkloadClusterQueue.
  repeat split.
  - by intros adm ->.
  - by intros name -> ->.
  - intros ->. destruct (queue_ClusterQueueForWorkload qm wl) as [name ok].
    cbn. by intros ->.
Qed.

End PredicateClaims.

Section ReconcileClaims.

Context {C Q : Type} `{!CacheAPI C} `{!QueueManagerAPI Q}.
Variable F : Faults.

Implicit Types (w : World C Q) (cqObj : ClusterQueue).

Lemma SemanticDeepEqual_refl (st : ClusterQueueStatus) : SemanticDeepEqual st st = true.
Proof. unfold SemanticDeepEqual. by rewrite !bool_decide_eq_true_2. Qed.

(** A nil map and an empty map are the same status. *)
Lemma SemanticDeepEqual_nil_empty (pending admitted : Z) :
  SemanticDeepEqual
    {| UsedResources := None; PendingWorkloads := pending; AdmittedWorkloads := admitted |}
    {| UsedResources := Some ∅; PendingWorkloads := pending; AdmittedWorkloads := admitted |}
  = true.
Proof. unfold SemanticDeepEqual. by rewrite !bool_decide_eq_true_2. Qed.

(** The order in which the entries of a map were inserted does not matter. *)
Lemma SemanticDeepEqual_insertion_order (l1 l2 : list (string * Z)) (pending admitted : Z) :
  NoDup l1.*1 → l1 ≡ₚ l2 →
  SemanticDeepEqual
    {| UsedResources := Some (list_to_map l1);
       PendingWorkloads := pending; AdmittedWorkloads := admitted |}
    {| UsedResources := Some (list_to_map l2);
       PendingWorkloads := pending; AdmittedWorkloads := admitted |}
  = true.
Proof.
  intros Hnd Hperm. unfold SemanticDeepEqual. cbn.
  rewrite (list_to_map_proper (M := gmap string) l1 l2 Hnd Hperm).
  by rewrite !bool_decide_eq_true_2.
Qed.

(** The run of [Reconcile] once the object was read and its status
    computed. *)
Lemma Reconcile_run (name : string) cqObj (usage : option (gmap string Z)) (workloads : Z) w :
  getFault F name = None →
  queues w !! name = Some cqObj →
  cache_Usage (cache w) cqObj = (usage, workloads, None) →
  let status := {| UsedResources := usage;
                   PendingWorkloads := queue_Pending (qManager w) cqObj;
                   AdmittedWorkloads := int32 workloads |} in
  Reconcile F name w =
  if SemanticDeepEqual status (Status cqObj)
  then (None, record (EvGet name) w)
  else
    let r := client_StatusUpdate F (withStatus status cqObj) (record (EvGet name) w) in
    (IgnoreNotFound r.1, r.2).
Proof.
  intros Hget Hq Husage. cbv zeta.
  unfold Reconcile, bind, client_Get, reconciler_Status.
  rewrite Hget, Hq. cbn [cache qManager record]. rewrite Husage.
  destruct (SemanticDeepEqual _ (Status cqObj)); cbn [negb]; [done|].
  by destruct (client_StatusUpdate F _ _).
Qed.

(** C6: when the object is read and its status computed from the cache and
    the queue manager: if the computed status is semantically equal to the
    persisted one, no status write is issued and the invocation succeeds;
    if they differ, exactly one status write is issued, carrying the
    computed status. *)
Theorem C6_status_written_only_on_change (name : string) cqObj
    (usage : option (gmap string Z)) (workloads : Z) w :
  getFault F name = None →
  queues w !! name = Some cqObj →
  cache_Usage (cache w) cqObj = (usage, workloads, None) →
  let status := {| UsedResources := usage;
                   PendingWorkloads := queue_Pending (qManager w) cqObj;
                   AdmittedWorkloads := int32 workloads |} in
  let r := Reconcile F name w in
  if SemanticDeepEqual status (Status cqObj)
  then r = (None, record (EvGet name) w)
  else trace r.2 = EvStatusUpdate (withStatus status cqObj) :: EvGet name :: trace w
       ∧ countEvents isStatusUpdate (trace r.2)
         = S (countEvents isStatusUpdate (trace w)).
Proof.
  intros Hget Hq Husage. cbv zeta.
  rewrite (Reconcile_run name cqObj usage workloads w Hget Hq Husage). cbv zeta.
  destruct (SemanticDeepEqual _ (Status cqObj)); [done|].
  unfold client_StatusUpdate.
  destruct (statusUpdateFault F _); done.
Qed.

(** C7 (amended): when a status write is issued, the invocation returns
    what [IgnoreNotFound] makes of the outcome of the write: success when
    the write succeeds or reports not-found, and the error itself for every
    other error, a conflict included. *)
Theorem C7_status_write_errors (name : string) cqObj
    (usage : option (gmap string Z)) (workloads : Z) w :
  getFault F name = None →
  queues w !! name = Some cqObj →
  cache_Usage (cache w) cqObj = (usage, workloads, None) →
  SemanticDeepEqual
    {| UsedResources := usage;
       PendingWorkloads := queue_Pending (qManager w) cqObj;
       AdmittedWorkloads := int32 workloads |} (Status cqObj) = false →
  let r := Reconcile F name w in
  match statusUpdateFault F (cq_Name cqObj) with
  | None => r.1 = None
  | Some ErrNotFound => r.1 = None
  | Some ErrConflict => r.1 = Some ErrConflict
  | Some (ErrOther msg) => r.1 = Some (ErrOther msg)
  end.
Proof.
  intros Hget Hq Husage Hne. cbv zeta.
  rewrite (Reconcile_run name cqObj usage workloads w Hget Hq Husage). cbv zeta.
  rewrite Hne. unfold client_StatusUpdate. cbn [withStatus cq_Name].
  by destruct (statusUpdateFault F (cq_Name cqObj)) as [[| |msg]|].
Qed.

End ReconcileClaims.

(** * The claims on concrete runs *)

(** A synchronisation of [cq] from flavor [f] to flavor [g] in which the
    persist of [f] fails reports success, and [f] still holds [cq]; one whose
    first list call fails makes no flavor update at all. *)
Lemma C1_counterexample :
  let old := queueWith "cq" [["f"]] in
  let new := queueWith "cq" [["g"]] in
  let w := clusterWorld emptyStatus in
  let r := updateReferences (persistFails "f") old new w in
  let r' := updateReferences (listFailsAt 0) old new w in
  (r.1 = None
   ∧ ¬ SyncedWhere (λ _, True) "cq" (referencedFlavors old) (referencedFlavors new)
         (flavors w) (flavors r.2))
  ∧ (trace r'.2 = [EvList]
     ∧ ¬ SyncedWhere (λ _, True) "cq" (referencedFlavors old) (referencedFlavors new)
           (flavors w) (flavors r'.2)).
Proof.
  cbv zeta.
  assert ("f" ∈ referencedFlavors (queueWith "cq" [["f"]])
                ∖ referencedFlavors (queueWith "cq" [["g"]])) as Hin
    by (apply (bool_decide_unpack _); vm_compute; exact I).
  split; (split; [by vm_compute|]); intros Hsync;
    destruct (Hsync "f" (Some (<["cq" := ""]> {["other" := ""]})) eq_refl) as (Hrm & _);
    specialize (Hrm Hin I);
    apply (f_equal (λ o, o ≫= (λ refs, refLookup refs "cq"))) in Hrm;
    vm_compute in Hrm; discriminate Hrm.
Qed.

Lemma C1_witness :
  let old := queueWith "cq" [["f"]] in
  let new := queueWith "cq" [["g"]] in
  let w := clusterWorld emptyStatus in
  let r := updateReferences noFaults old new w in
  let r' := updateReferences (persistFails "f") old new w in
  (r.1 = None
   ∧ SyncedWhere (λ f, updateFault noFaults f = None) "cq"
       (referencedFlavors old) (referencedFlavors new) twoFlavors (flavors r.2))
  ∧ (r'.1 = None ∧ flavors r'.2 !! "f" = twoFlavors !! "f").
Proof.
  cbv zeta. split.
  - exact (proj2 (proj2 (C1_reference_symmetric_difference noFaults
                           (queueWith "cq" [["f"]]) (queueWith "cq" [["g"]])
                           (clusterWorld emptyStatus))) eq_refl eq_refl).
  - split.
    + exact (proj1 (proj2 (proj2 (C1_reference_symmetric_difference (persistFails "f")
                                    (queueWith "cq" [["f"]]) (queueWith "cq" [["g"]])
                                    (clusterWorld emptyStatus))) eq_refl eq_refl)).
    + apply (proj1 (proj2 (C1_reference_symmetric_difference (persistFails "f")
                             (queueWith "cq" [["f"]]) (queueWith "cq" [["g"]])
                             (clusterWorld emptyStatus)))).
      discriminate.
Defined.

(** The first list call succeeds, the second fails: the synchronisation
    fails although the initial list call did not, and the removal of [cq]
    from [f] has been applied. *)
Lemma C2_counterexample :
  let old := queueWith "cq" [["f"]] in
  let new := queueWith "cq" [["g"]] in
  let w := clusterWorld emptyStatus in
  let r := updateReferences (listFailsAt 1) old new w in
  listFault (listFailsAt 1) (listCalls (trace w)) = None
  ∧ r.1 = Some (ErrOther "list refused")
  ∧ (flavors w !! "f") ≫= (λ refs, refLookup refs "cq") = Some ""
  ∧ (flavors r.2 !! "f") ≫= (λ refs, refLookup refs "cq") = None.
Proof. cbv zeta. repeat split; by vm_compute. Qed.

Lemma C2_witness :
  let old := queueWith "cq" [["f"]] in
  let new := queueWith "cq" [["g"]] in
  let w := clusterWorld emptyStatus in
  let r := updateReferences (persistFails "f") old new w in
  r.1 = None
  ∧ EvUpdate {| rf_Name := "f";
                ClusterQueues := removeRef "cq" (Some (<["cq" := ""]> {["other" := ""]})) |}
      ∈ trace r.2
  ∧ EvUpdate {| rf_Name := "g"; ClusterQueues := insertRef "cq" None |} ∈ trace r.2.
Proof.
  cbv zeta.
  destruct (C2_synchronisation_failures (persistFails "f")
              (queueWith "cq" [["f"]]) (queueWith "cq" [["g"]])
              (clusterWorld emptyStatus)) as (Hr & _ & _ & Hrm & Hadd).
  split; [exact Hr|]. split.
  - apply (Hrm eq_refl "f"); [|reflexivity].
    apply (bool_decide_unpack _). vm_compute. exact I.
  - apply (Hadd eq_refl eq_refl "g"); [|reflexivity].
    apply (bool_decide_unpack _). vm_compute. exact I.
Defined.

(** With one identifier to remove and one to add, and no failure, the
    flavors are listed twice. *)
Lemma C3_counterexample :
  let old := queueWith "cq" [["f"]] in
  let new := queueWith "cq" [["g"]] in
  let w := clusterWorld emptyStatus in
  let r := updateReferences noFaults old new w in
  "f" ∈ referencedFlavors old ∖ referencedFlavors new
  ∧ "g" ∈ referencedFlavors new ∖ referencedFlavors old
  ∧ listCalls (trace w) = 0%nat
  ∧ listCalls (trace r.2) = 2%nat.
Proof.
  cbv zeta. split; [|split; [|split]]; by vm_compute.
Qed.

(** The list call fails on a delete notification: the predicate returns
    false and the queue is still in the cache and in the queue manager. *)
Lemma C4_counterexample :
  let cq := queueWith "cq" [["f"]] in
  let w := clusterWorld emptyStatus in
  let r := Delete (listFailsAt 0) (ObjClusterQueue cq) w in
  r.1 = false
  ∧ cache r.2 !! "cq" = Some (Some {["cpu" := 2]}, 1)
  ∧ cache_DeleteClusterQueue (cache w) cq !! "cq" = None
  ∧ sq_pending (qManager r.2) !! "cq" = Some 3
  ∧ sq_pending (queue_DeleteClusterQueue (qManager w) cq) !! "cq" = None.
Proof. cbv zeta. repeat split; by vm_compute. Qed.

Lemma C4_witness :
  let cq := queueWith "cq" [["f"]] in
  let w := clusterWorld emptyStatus in
  let r := Delete noFaults (ObjClusterQueue cq) w in
  r.1 = true
  ∧ cache r.2 = cache_DeleteClusterQueue (cache w) cq
  ∧ qManager r.2 = queue_DeleteClusterQueue (qManager w) cq.
Proof.
  cbv zeta.
  pose proof (C4_delete_predicate noFaults (queueWith "cq" [["f"]])
                (clusterWorld emptyStatus)) as Hd.
  cbv zeta in Hd.
  rewrite (updateReferences_result noFaults) in Hd. cbn [noFaults listFault] in Hd.
  destruct Hd as (? & ? & ? & _). done.
Defined.

(** Creating a queue the cache and the queue manager already know: both
    additions fail, the failures are logged and the predicate returns true. *)
Lemma C5_witness :
  let cq := queueWith "cq" [["f"]] in
  let w := clusterWorld emptyStatus in
  let r := Create noFaults (ObjClusterQueue cq) w in
  (cache_AddClusterQueue (cache w) cq).2 = Some (ErrOther "ClusterQueue already exists")
  ∧ (queue_AddClusterQueue (qManager w) cq).2 = Some (ErrOther "ClusterQueue already exists")
  ∧ r.1 = true
  ∧ EvLogError "Failed to add clusterQueue to cache" ∈ trace r.2
  ∧ EvLogError "Failed to add clusterQueue to queue manager" ∈ trace r.2.
Proof.
  cbv zeta.
  pose proof (C5_create_predicate noFaults (queueWith "cq" [["f"]])
                (clusterWorld emptyStatus)) as Hc.
  cbv zeta in Hc.
  rewrite (updateReferences_result noFaults) in Hc. cbn [noFaults listFault] in Hc.
  destruct Hc as (Hr & _ & _ & Ht).
  split; [reflexivity|]. split; [reflexivity|]. split; [exact Hr|].
  rewrite Ht. split.
  - do 2 apply list_elem_of_further. apply list_elem_of_here.
  - apply list_elem_of_here.
Defined.

(** The persisted status equals the computed one (cpu:2, one admitted,
    three pending): nothing is written.  The persisted status says four
    pending: one write, carrying the computed status. *)
Lemma C6_witness :
  let cq := queueWith "cq" [["f"]] in
  let same := Reconcile noFaults "cq" (clusterWorld (statusWith 3)) in
  let changed := Reconcile noFaults "cq" (clusterWorld (statusWith 4)) in
  same = (None, record (EvGet "cq") (clusterWorld (statusWith 3)))
  ∧ trace changed.2 = [EvStatusUpdate (withStatus (statusWith 3) cq); EvGet "cq"].
Proof.
  cbv zeta. split.
  - exact (C6_status_written_only_on_change noFaults "cq"
             (withStatus (statusWith 3) (queueWith "cq" [["f"]]))
             (Some {["cpu" := 2]}) 1 (clusterWorld (statusWith 3))
             eq_refl eq_refl eq_refl).
  - exact (proj1 (C6_status_written_only_on_change noFaults "cq"
                    (withStatus (statusWith 4) (queueWith "cq" [["f"]]))
                    (Some {["cpu" := 2]}) 1 (clusterWorld (statusWith 4))
                    eq_refl eq_refl eq_refl)).
Defined.

(** The status write is issued and answered by a conflict: the invocation
    returns the conflict. *)
Lemma C7_counterexample :
  let cq := queueWith "cq" [["f"]] in
  let r := Reconcile (statusUpdateFails ErrConflict) "cq" (clusterWorld (statusWith 4)) in
  trace r.2 = [EvStatusUpdate (withStatus (statusWith 3) cq); EvGet "cq"]
  ∧ statusUpdateFault (statusUpdateFails ErrConflict) "cq" = Some ErrConflict
  ∧ r.1 = Some ErrConflict.
Proof. cbv zeta. repeat split; by vm_compute. Qed.

Lemma C7_witness :
  (Reconcile (statusUpdateFails ErrNotFound) "cq" (clusterWorld (statusWith 4))).1 = None
  ∧ (Reconcile (statusUpdateFails ErrConflict) "cq" (clusterWorld (statusWith 4))).1
    = Some ErrConflict.
Proof.
  split.
  - exact (C7_status_write_errors (statusUpdateFails ErrNotFound) "cq"
             (withStatus (statusWith 4) (queueWith "cq" [["f"]]))
             (Some {["cpu" := 2]}) 1 (clusterWorld (statusWith 4))
             eq_refl eq_refl eq_refl eq_refl).
  - exact (C7_status_write_errors (statusUpdateFails ErrConflict) "cq"
             (withStatus (statusWith 4) (queueWith "cq" [["f"]]))
             (Some {["cpu" := 2]}) 1 (clusterWorld (statusWith 4))
             eq_refl eq_refl eq_refl eq_refl).
Defined.

(** An admitted workload, a pending workload the queue manager knows, and a
    workload it does not know. *)
Lemma C8_witness :
  let qm := qManager (clusterWorld emptyStatus) in
  let admitted := {| wl_Namespace := "ns"; wl_Name := "job";
                     wl_Admission := Some {| adm_ClusterQueue := "cq2" |} |} in
  let pending := {| wl_Namespace := "ns"; wl_Name := "job"; wl_Admission := None |} in
  let stray := {| wl_Namespace := "ns"; wl_Name := "stray"; wl_Admission := None |} in
  cqWorkloadHandler_Generic 1000 qm (ObjWorkload admitted) []
  = Some [({| req_Namespace := ""; req_Name := "cq2" |}, 1000)]
  ∧ cqWorkloadHandler_Generic 1000 qm (ObjWorkload pending) []
    = Some [({| req_Namespace := ""; req_Name := "cq" |}, 1000)]
  ∧ cqWorkloadHandler_Generic 1000 qm (ObjWorkload stray) [] = Some [].
Proof.
  cbv zeta. split; [|split].
  - exact (proj1 (C8_workload_request 1000 (qManager (clusterWorld emptyStatus))
                    {| wl_Namespace := "ns"; wl_Name := "job";
                       wl_Admission := Some {| adm_ClusterQueue := "cq2" |} |} [])
                 _ eq_refl).
  - exact (proj1 (proj2 (C8_workload_request 1000 (qManager (clusterWorld emptyStatus))
                           {| wl_Namespace := "ns"; wl_Name := "job"; wl_Admission := None |} []))
                 "cq" eq_refl eq_refl).
  - exact (proj2 (proj2 (C8_workload_request 1000 (qManager (clusterWorld emptyStatus))
                           {| wl_Namespace := "ns"; wl_Name := "stray"; wl_Admission := None |} []))
                 eq_refl eq_refl).
Defined.

(** Removing [cq] from flavor [f] leaves the entry of [other] in place. *)
Lemma C9_witness :
  let old := queueWith "cq" [["f"]] in
  let new := queueWith "cq" [["g"]] in
  let r := updateReferences noFaults old new (clusterWorld emptyStatus) in
  "other" ≠ "cq"
  ∧ is_Some (flavors r.2 !! "f")
  ∧ ∀ refs', flavors r.2 !! "f" = Some refs' → refLookup refs' "other" = Some "".
Proof.
  cbv zeta.
  assert ("other" ≠ "cq") as Hne by discriminate.
  pose proof (C9_other_references_unchanged noFaults
                (queueWith "cq" [["f"]]) (queueWith "cq" [["g"]])
                (clusterWorld emptyStatus) "f" "other" Hne) as [Hdom Hrefs].
  split; [exact Hne|]. split.
  - apply Hdom. eexists. reflexivity.
  - intros refs' Hafter. exact (Hrefs _ refs' eq_refl Hafter).
Defined.

(** The old object is a workload: no list call, both updates, true. *)
Lemma C10_witness :
  let cq := queueWith "cq" [["f"; "g"]] in
  let old := ObjWorkload {| wl_Namespace := "ns"; wl_Name := "job"; wl_Admission := None |} in
  let r := Update noFaults old (ObjClusterQueue cq) (clusterWorld emptyStatus) in
  r.1 = true
  ∧ flavors r.2 = twoFlavors
  ∧ trace r.2 = [EvQueueUpdate cq; EvCacheUpdate cq].
Proof.
  cbv zeta.
  destruct (C10_update_old_not_a_queue noFaults
              (ObjWorkload {| wl_Namespace := "ns"; wl_Name := "job"; wl_Admission := None |})
              (queueWith "cq" [["f"; "g"]]) (clusterWorld emptyStatus))
    as (Hr & Hfl & _ & _ & Ht).
  - intros oldCQ. discriminate.
  - split; [exact Hr|]. split; [exact Hfl|]. exact Ht.
Defined.

(** * Further properties of the controller *)

Section SynchronisationTrace.

Context {C Q : Type} `{!CacheAPI C} `{!QueueManagerAPI Q}.
Variable F : Faults.

Implicit Types (w : World C Q) (oldCQ cq : ClusterQueue) (k f : string).

Lemma syncOne_trace cq (rfCache : gmap string ResourceFlavor) (deletion : bool) k w :
  trace (syncOne F cq rfCache deletion k w).2
  = syncOneEvents F (cq_Name cq) rfCache deletion k ++ trace w.
Proof.
  unfold syncOne, syncOneEvents. destruct (rfCache !! k) as [rf|]; [|done].
  unfold bind, client_Update. cbn [touch rf_Name].
  by destruct (updateFault F (rf_Name rf)).
Qed.

Lemma forRange_syncOne_trace cq (rfCache : gmap string ResourceFlavor) (deletion : bool)
    (ks : list string) w :
  trace (forRange ks (syncOne F cq rfCache deletion) w).2
  = syncEvents F (cq_Name cq) rfCache deletion ks ++ trace w.
Proof.
  revert w. induction ks as [|k ks IH]; intros w; [done|].
  rewrite forRange_cons, IH, syncOne_trace. cbn [syncEvents].
  by rewrite (assoc_L (++)).
Qed.

Lemma elem_of_logged (e : Event) (err : option error) (msg : string) :
  e ∈ logged err msg ↔ err ≠ None ∧ e = EvLogError msg.
Proof.
  destruct err as [x|]; cbn.
  - rewrite list_elem_of_singleton. naive_solver.
  - rewrite elem_of_nil. naive_solver.
Qed.

Lemma syncEvents_update (name : string) (rfCache : gmap string ResourceFlavor)
    (deletion : bool) (ks : list string) (rf' : ResourceFlavor) :
  EvUpdate rf' ∈ syncEvents F name rfCache deletion ks
  ↔ ∃ k rf, k ∈ ks ∧ rfCache !! k = Some rf ∧ rf' = touch deletion name rf.
Proof.
  induction ks as [|k ks IH]; cbn [syncEvents].
  - rewrite elem_of_nil. split; [done|]. intros (k & rf & Hk & _). by apply elem_of_nil in Hk.
  - rewrite elem_of_app, IH. unfold syncOneEvents. split.
    + intros [(k' & rf & ? & ? & ?)|Hin].
      * exists k', rf. split; [by apply list_elem_of_further | done].
      * destruct (rfCache !! k) as [rf|] eqn:Hk.
        -- apply elem_of_app in Hin as [Hin|Hin].
           ++ apply elem_of_logged in Hin as [_ ?]. done.
           ++ apply list_elem_of_singleton in Hin as [= ->].
              exists k, rf. split; [apply list_elem_of_here | done].
        -- apply list_elem_of_singleton in Hin. done.
    + intros (k' & rf & Hin & Hrf & ->).
      apply elem_of_cons in Hin as [->|Hin]; [|left; eauto].
      right. rewrite Hrf. apply elem_of_app. right. by apply list_elem_of_singleton.
Qed.

Lemma syncEvents_missing (name : string) (rfCache : gmap string ResourceFlavor)
    (deletion : bool) (ks : list string) :
  EvLogError "Cannot find resource flavor" ∈ syncEvents F name rfCache deletion ks
  ↔ ∃ k, k ∈ ks ∧ rfCache !! k = None.
Proof.
  induction ks as [|k ks IH]; cbn [syncEvents].
  - rewrite elem_of_nil. split; [done|]. intros (k & Hk & _). by apply elem_of_nil in Hk.
  - rewrite elem_of_app, IH. unfold syncOneEvents. split.
    + intros [(k' & ? & ?)|Hin].
      * exists k'. split; [by apply list_elem_of_further | done].
      * destruct (rfCache !! k) as [rf|] eqn:Hk.
        -- apply elem_of_app in Hin as [Hin|Hin].
           ++ apply elem_of_logged in Hin as [_ ?]. done.
           ++ apply list_elem_of_singleton in Hin. done.
        -- exists k. split; [apply list_elem_of_here | done].
    + intros (k' & Hin & Hrf).
      apply elem_of_cons in Hin as [->|Hin]; [|left; eauto].
      right. rewrite Hrf. by apply list_elem_of_singleton.
Qed.

Lemma syncEvents_persist_failed (name : string) (rfCache : gmap string ResourceFlavor)
    (deletion : bool) (ks : list string) :
  EvLogError "Fail to update resource flavor reference"
    ∈ syncEvents F name rfCache deletion ks
  ↔ ∃ k rf, k ∈ ks ∧ rfCache !! k = Some rf ∧ updateFault F (rf_Name rf) ≠ None.
Proof.
  induction ks as [|k ks IH]; cbn [syncEvents].
  - rewrite elem_of_nil. split; [done|]. intros (k & rf & Hk & _). by apply elem_of_nil in Hk.
  - rewrite elem_of_app, IH. unfold syncOneEvents. split.
    + intros [(k' & rf & ? & ? & ?)|Hin].
      * exists k', rf. split; [by apply list_elem_of_further | done].
      * destruct (rfCache !! k) as [rf|] eqn:Hk.
        -- apply elem_of_app in Hin as [Hin|Hin].
           ++ apply elem_of_logged in Hin as [? _].
              exists k, rf. split; [apply list_elem_of_here | done].
           ++ apply list_elem_of_singleton in Hin. done.
        -- apply list_elem_of_singleton in Hin. done.
    + intros (k' & rf & Hin & Hrf & Hfail).
      apply elem_of_cons in Hin as [->|Hin]; [|left; eauto].
      right. rewrite Hrf. apply elem_of_app. left. by apply elem_of_logged.
Qed.

(** The loop records updates and error log lines only. *)
Lemma syncEvents_kinds (name : string) (rfCache : gmap string ResourceFlavor)
    (deletion : bool) (ks : list string) :
  Forall (λ e, match e with EvUpdate _ | EvLogError _ => True | _ => False end)
         (syncEvents F name rfCache deletion ks).
Proof.
  induction ks as [|k ks IH]; cbn [syncEvents]; [constructor|].
  apply Forall_app. split; [done|]. unfold syncOneEvents.
  destruct (rfCache !! k) as [rf|]; [|by repeat constructor].
  apply Forall_app. split; [|by repeat constructor].
  destruct (updateFault F (rf_Name rf)); by repeat constructor.
Qed.

(** The trace of one phase whose list call succeeds. *)
Lemma updateResourceFlavorReferences_trace cq (objs : gset string) (deletion : bool) w :
  listFault F (listCalls (trace w)) = None →
  trace (updateResourceFlavorReferences F cq objs deletion w).2
  = syncEvents F (cq_Name cq) (buildRfCache (flavorItems (flavors w))) deletion
      (elements objs)
    ++ EvList :: trace w.
Proof.
  intros Hok. unfold updateResourceFlavorReferences, bind, client_List.
  rewrite Hok.
  pose proof (forRange_syncOne_trace cq (buildRfCache (flavorItems (flavors w)))
                deletion (elements objs) (record EvList w)) as Ht.
  by destruct (forRange (elements objs) _ (record EvList w)) as [[] w1].
Qed.

End SynchronisationTrace.

Section SynchronisationExtras.

Context {C Q : Type} `{!CacheAPI C} `{!QueueManagerAPI Q}.
Variable F : Faults.

Implicit Types (w : World C Q) (oldCQ cq : ClusterQueue) (k f : string).

Lemma since_app (evs t0 : list Event) : since t0 (evs ++ t0) = evs.
Proof.
  unfold since. rewrite length_app.
  replace (length evs + length t0 - length t0)%nat with (length evs) by lia.
  by rewrite take_app_length.
Qed.

Lemma since_cons (e : Event) (t0 : list Event) : since t0 (e :: t0) = [e].
Proof. apply (since_app [e]). Qed.

Lemma countEvents_since (p : Event → bool) (evs t0 : list Event) :
  countEvents p (evs ++ t0) = (countEvents p evs + countEvents p t0)%nat.
Proof. apply countEvents_app. Qed.

Lemma removeRef_idemp (name : string) (refs : option (gmap string string)) :
  removeRef name (removeRef name refs) = removeRef name refs.
Proof.
  destruct refs as [m|]; [|done]. cbn. f_equal.
  apply map_eq. intros i. destruct (decide (i = name)) as [->|?].
  - by rewrite !lookup_delete_eq.
  - by rewrite !lookup_delete_ne.
Qed.

Lemma insertRef_idemp (name : string) (refs : option (gmap string string)) :
  insertRef name (insertRef name refs) = insertRef name refs.
Proof. unfold insertRef. cbn. by rewrite insert_insert_eq. Qed.

(** The phase that removes, when its list call succeeds. *)
Lemma removal_phase oldCQ cq w :
  listFault F (listCalls (trace w)) = None →
  let A := referencedFlavors oldCQ in
  let B := referencedFlavors cq in
  let r1 := updateResourceFlavorReferences F cq (A ∖ B) true w in
  r1.1 = None
  ∧ (∀ f, flavors r1.2 !! f =
          (λ c, if decide (f ∈ A ∖ B ∧ updateFault F f = None)
                then removeRef (cq_Name cq) c else c) <$> flavors w !! f)
  ∧ trace r1.2 =
      syncEvents F (cq_Name cq) (buildRfCache (flavorItems (flavors w))) true
        (elements (A ∖ B)) ++ EvList :: trace w
  ∧ listCalls (trace r1.2) = S (listCalls (trace w)).
Proof.
  intros H1. cbv zeta.
  destruct (updateResourceFlavorReferences_ok F cq
              (referencedFlavors oldCQ ∖ referencedFlavors cq) true w H1)
    as (Hr & Hfl & _ & _ & _ & evs & Ht & Hl & _).
  repeat split; [done | done | by apply updateResourceFlavorReferences_trace |].
  rewrite Ht. by apply listCalls_after_phase.
Qed.

(** The trace of a synchronisation whose first list call succeeds; [w1] is
    the world between the two phases. *)
Lemma updateReferences_trace oldCQ cq w :
  listFault F (listCalls (trace w)) = None →
  let A := referencedFlavors oldCQ in
  let B := referencedFlavors cq in
  let r := updateReferences F oldCQ cq w in
  ∃ w1,
    (∀ f, flavors w1 !! f =
          (λ c, if decide (f ∈ A ∖ B ∧ updateFault F f = None)
                then removeRef (cq_Name cq) c else c) <$> flavors w !! f)
    ∧ trace r.2 =
        match listFault F (S (listCalls (trace w))) with
        | Some _ => [EvList]
        | None =>
            syncEvents F (cq_Name cq) (buildRfCache (flavorItems (flavors w1))) false
              (elements (B ∖ A)) ++ [EvList]
        end
        ++ syncEvents F (cq_Name cq) (buildRfCache (flavorItems (flavors w))) true
             (elements (A ∖ B))
        ++ EvList :: trace w.
Proof.
  intros H1. cbv zeta. rewrite updateReferences_phases. cbv zeta.
  pose proof (removal_phase oldCQ cq w H1) as Hp. cbv zeta in Hp.
  destruct (updateResourceFlavorReferences F cq _ true w) as [r1 w1].
  cbn [fst snd] in *. destruct Hp as (-> & Hfl & Ht & Hn).
  exists w1. split; [done|].
  destruct (listFault F (S (listCalls (trace w)))) as [e|] eqn:H2.
  - rewrite (updateResourceFlavorReferences_fails F cq _ false w1 e)
      by (by rewrite Hn).
    unfold record. cbn [snd trace]. by rewrite Ht.
  - rewrite updateResourceFlavorReferences_trace by (by rewrite Hn).
    rewrite Ht. by rewrite <- (assoc_L (++)).
Qed.

Lemma phases_app (a b t : list Event) :
  a ++ b ++ EvList :: t = (a ++ b ++ [EvList]) ++ t.
Proof. by rewrite <- !(assoc_L (++)). Qed.

Lemma updateReferences_extends oldCQ cq w :
  ∃ evs, trace (updateReferences F oldCQ cq w).2 = evs ++ trace w.
Proof.
  destruct (listFault F (listCalls (trace w))) as [e|] eqn:H1.
  { rewrite (updateReferences_first_list_fails F oldCQ cq w e H1). by exists [EvList]. }
  destruct (updateReferences_trace oldCQ cq w H1) as (w1 & _ & ->).
  eexists. apply phases_app.
Qed.

Lemma updateReferences_listCalls oldCQ cq w :
  listFault F (listCalls (trace w)) = None →
  listCalls (trace (updateReferences F oldCQ cq w).2) = S (S (listCalls (trace w))).
Proof.
  intros H1.
  destruct (listFault F (S (listCalls (trace w)))) as [e|] eqn:H2.
  - destruct (updateReferences_second_list_fails F oldCQ cq w e H1 H2)
      as (_ & _ & _ & _ & _ & evs & -> & Hl & _).
    change (listCalls (EvList :: ?t)) with (S (listCalls t)).
    by rewrite listCalls_after_phase.
  - destruct (updateReferences_lists_ok F oldCQ cq w H1 H2)
      as (_ & _ & _ & _ & _ & evs1 & evs2 & -> & Hl1 & Hl2 & _).
    by rewrite !listCalls_after_phase.
Qed.

(** Every flavor update recorded by a synchronisation. *)
Lemma updateReferences_writes oldCQ cq w (rf' : ResourceFlavor) :
  let A := referencedFlavors oldCQ in
  let B := referencedFlavors cq in
  EvUpdate rf' ∈ since (trace w) (trace (updateReferences F oldCQ cq w).2) →
  ∃ c, flavors w !! rf_Name rf' = Some c
       ∧ ((rf_Name rf' ∈ A ∖ B ∧ ClusterQueues rf' = removeRef (cq_Name cq) c)
          ∨ (rf_Name rf' ∈ B ∖ A ∧ ClusterQueues rf' = insertRef (cq_Name cq) c)).
Proof.
  cbv zeta.
  destruct (listFault F (listCalls (trace w))) as [e|] eqn:H1.
  { rewrite (updateReferences_first_list_fails F oldCQ cq w e H1).
    unfold record. cbn [snd trace]. rewrite since_cons.
    intros Hin. apply list_elem_of_singleton in Hin. done. }
  destruct (updateReferences_trace oldCQ cq w H1) as (w1 & Hfl & ->).
  rewrite phases_app, since_app.
  intros Hin. apply elem_of_app in Hin as [Hin|Hin].
  - destruct (listFault F (S (listCalls (trace w)))) as [e|].
    { apply list_elem_of_singleton in Hin. done. }
    apply elem_of_app in Hin as [Hin|Hin];
      [|apply list_elem_of_singleton in Hin; done].
    apply syncEvents_update in Hin as (k & rf & Hk & Hrf & ->).
    rewrite buildRfCache_lookup, fmap_Some in Hrf. destruct Hrf as (c1 & Hc1 & ->).
    apply elem_of_elements in Hk. cbn [touch rf_Name ClusterQueues touchRefs].
    rewrite Hfl in Hc1. apply fmap_Some in Hc1 as (c & Hc & ->).
    exists c. split; [done|]. right. split; [done|].
    rewrite decide_False; [done | set_solver].
  - apply elem_of_app in Hin as [Hin|Hin];
      [|apply list_elem_of_singleton in Hin; done].
    apply syncEvents_update in Hin as (k & rf & Hk & Hrf & ->).
    rewrite buildRfCache_lookup, fmap_Some in Hrf. destruct Hrf as (c & Hc & ->).
    apply elem_of_elements in Hk. cbn [touch rf_Name ClusterQueues touchRefs].
    exists c. split; [done|]. by left.
Qed.

Lemma updateReferences_dom oldCQ cq w :
  dom (flavors (updateReferences F oldCQ cq w).2) = dom (flavors w).
Proof.
  apply set_eq. intros f. rewrite !elem_of_dom.
  destruct (updateReferences_flavor_cases F oldCQ cq w f) as [Hf|[[_ Hf]|[_ Hf]]];
    rewrite Hf; [done | by rewrite fmap_is_Some | by rewrite fmap_is_Some].
Qed.

Lemma updateReferences_succeeds oldCQ cq w :
  (updateReferences F oldCQ cq w).1 = None →
  listFault F (listCalls (trace w)) = None
  ∧ listFault F (S (listCalls (trace w))) = None.
Proof.
  rewrite updateReferences_result.
  by destruct (listFault F (listCalls (trace w))).
Qed.

(** X1: the names gathered by the loops over the resource groups are exactly
    the names of the flattened flavor lists, as a set: a flavor listed by
    several resource groups counts once, and a nil list gives no name. *)
Theorem X1_flavor_names_flattened (rs : slice Resource) :
  flavorNames rs
  = list_to_set (flavor_Name <$> concat ((λ res, items (Flavors res)) <$> items rs))
  ∧ flavorNames nil_slice = ∅.
Proof. split; [apply flavorNames_flatten | done]. Qed.

(** X2: the loops that fill [needRemove] and [needAdd] compute the two set
    differences; the two sets are disjoint, and both are empty when the old
    and new sets are equal. *)
Theorem X2_needed_sets (xs ys : gset string) :
  missingFrom xs ys = xs ∖ ys
  ∧ missingFrom xs ys ## missingFrom ys xs
  ∧ missingFrom xs xs = ∅.
Proof.
  rewrite !missingFrom_difference. repeat split; set_solver.
Qed.

(** X3: when the old and the new spec refer to the same set of flavors, a
    synchronisation persists nothing: no flavor changes and no flavor update
    is sent, whatever list or update call would fail. *)
Theorem X3_same_flavor_set_writes_nothing oldCQ cq w :
  referencedFlavors oldCQ = referencedFlavors cq →
  let r := updateReferences F oldCQ cq w in
  flavors r.2 = flavors w
  ∧ ∀ rf, EvUpdate rf ∉ since (trace w) (trace r.2).
Proof.
  intros Heq. cbv zeta. split.
  - apply map_eq. intros f.
    destruct (updateReferences_flavor_cases F oldCQ cq w f) as [?|[[? _]|[? _]]];
      [done | set_solver | set_solver].
  - intros rf Hin.
    apply updateReferences_writes in Hin as (c & _ & [[? _]|[? _]]); set_solver.
Qed.

(** X4: every flavor update a synchronisation sends is for a flavor that
    exists and lies in the symmetric difference of the old and new flavor
    sets, and carries the persisted referencing set of that flavor with the
    queue's name removed (old − new) or inserted (new − old). *)
Theorem X4_updates_target_symmetric_difference oldCQ cq w (rf' : ResourceFlavor) :
  let A := referencedFlavors oldCQ in
  let B := referencedFlavors cq in
  EvUpdate rf' ∈ since (trace w) (trace (updateReferences F oldCQ cq w).2) →
  ∃ c, flavors w !! rf_Name rf' = Some c
       ∧ ((rf_Name rf' ∈ A ∖ B ∧ ClusterQueues rf' = removeRef (cq_Name cq) c)
          ∨ (rf_Name rf' ∈ B ∖ A ∧ ClusterQueues rf' = insertRef (cq_Name cq) c)).
Proof. apply updateReferences_writes. Qed.

(** X5: when both list calls succeed, the synchronisation succeeds even if
    flavors it needs do not exist; it logs "Cannot find resource flavor"
    exactly when some identifier to remove or to add has no flavor, and it
    creates no flavor. *)
Theorem X5_missing_flavor_is_logged oldCQ cq w :
  listFault F (listCalls (trace w)) = None →
  listFault F (S (listCalls (trace w))) = None →
  let A := referencedFlavors oldCQ in
  let B := referencedFlavors cq in
  let r := updateReferences F oldCQ cq w in
  r.1 = None
  ∧ dom (flavors r.2) = dom (flavors w)
  ∧ (EvLogError "Cannot find resource flavor" ∈ since (trace w) (trace r.2)
     ↔ ∃ k, k ∈ (A ∖ B) ∪ (B ∖ A) ∧ flavors w !! k = None).
Proof.
  intros H1 H2. cbv zeta.
  split; [by rewrite updateReferences_result, H1|].
  split; [apply updateReferences_dom|].
  destruct (updateReferences_trace oldCQ cq w H1) as (w1 & Hfl & ->).
  rewrite H2, phases_app, since_app, !elem_of_app, !syncEvents_missing.
  assert (∀ k, flavors w1 !! k = None ↔ flavors w !! k = None) as Hnone
    by (intros k; by rewrite Hfl, fmap_None).
  split.
  - intros [[(k & Hk & Hc)|Hin]|[(k & Hk & Hc)|Hin]].
    + exists k. rewrite buildRfCache_lookup, fmap_None, Hnone in Hc.
      apply elem_of_elements in Hk. set_solver.
    + apply list_elem_of_singleton in Hin. done.
    + exists k. rewrite buildRfCache_lookup, fmap_None in Hc.
      apply elem_of_elements in Hk. set_solver.
    + apply list_elem_of_singleton in Hin. done.
  - intros (k & Hk & Hc). apply elem_of_union in Hk as [Hk|Hk].
    + right. left. exists k. rewrite elem_of_elements, buildRfCache_lookup, fmap_None. done.
    + left. left. exists k.
      rewrite elem_of_elements, buildRfCache_lookup, fmap_None, Hnone. done.
Qed.

(** X6: a synchronisation that returns no error and logs no failed update
    has synchronised every existing flavor: those of old − new lost the
    queue's name, those of new − old gained it. *)
Theorem X6_quiet_success_is_synced oldCQ cq w :
  let r := updateReferences F oldCQ cq w in
  r.1 = None →
  EvLogError "Fail to update resource flavor reference"
    ∉ since (trace w) (trace r.2) →
  SyncedWhere (λ _, True) (cq_Name cq) (referencedFlavors oldCQ) (referencedFlavors cq)
    (flavors w) (flavors r.2).
Proof.
  cbv zeta. intros Hr Hquiet.
  destruct (updateReferences_succeeds oldCQ cq w Hr) as [H1 H2].
  destruct (updateReferences_lists_ok F oldCQ cq w H1 H2) as (_ & Hfl & _).
  destruct (updateReferences_trace oldCQ cq w H1) as (w1 & Hfl1 & Ht).
  rewrite Ht, H2, phases_app, since_app, !elem_of_app in Hquiet.
  rewrite !syncEvents_persist_failed in Hquiet.
  assert (∀ f refs, flavors w !! f = Some refs →
            f ∈ referencedFlavors oldCQ ∖ referencedFlavors cq
            ∨ f ∈ referencedFlavors cq ∖ referencedFlavors oldCQ →
            updateFault F f = None) as Hok.
  { intros f refs Hrefs Hin.
    destruct (updateFault F f) as [e|] eqn:Hf; [exfalso|done].
    apply Hquiet. destruct Hin as [Hin|Hin].
    - right. left. exists f, {| rf_Name := f; ClusterQueues := refs |}.
      rewrite elem_of_elements, buildRfCache_lookup, Hrefs. cbn. by rewrite Hf.
    - left. left. exists f, {| rf_Name := f; ClusterQueues := refs |}.
      rewrite elem_of_elements, buildRfCache_lookup, Hfl1, Hrefs. cbn.
      rewrite decide_False by set_solver. by rewrite Hf. }
  intros f refs Hrefs. rewrite Hfl, Hrefs. cbn. repeat split.
  - intros Hin _. rewrite decide_True; [done|]. split; [done|]. eauto.
  - intros Hin _. rewrite decide_False by set_solver.
    rewrite decide_True; [done|]. split; [done|]. eauto.
  - intros Hin. rewrite !decide_False by set_solver. done.
Qed.

(** X7: synchronising twice with the same old and new spec is idempotent
    on what the first run persisted.  The two runs have their own failures
    ([F] in the first, [F2] in the second).  When the four list calls
    succeed the second run succeeds, and it leaves as the first run left it
    every flavor outside the symmetric difference and every flavor whose
    update succeeded in the first run, whether or not its update succeeds
    in the second.  So when every update of an existing flavor succeeded in
    the first run, the second run changes no flavor. *)
Theorem X7_synchronisation_idempotent (F2 : Faults) oldCQ cq w :
  let n := listCalls (trace w) in
  let A := referencedFlavors oldCQ in
  let B := referencedFlavors cq in
  listFault F n = None → listFault F (S n) = None →
  listFault F2 (S (S n)) = None → listFault F2 (S (S (S n))) = None →
  let r1 := updateReferences F oldCQ cq w in
  let r2 := updateReferences F2 oldCQ cq r1.2 in
  r2.1 = None
  ∧ (∀ f, (f ∈ (A ∖ B) ∪ (B ∖ A) → updateFault F f = None) →
          flavors r2.2 !! f = flavors r1.2 !! f)
  ∧ ((∀ f, f ∈ (A ∖ B) ∪ (B ∖ A) → is_Some (flavors w !! f) →
           updateFault F f = None) →
     flavors r2.2 = flavors r1.2).
Proof.
  cbv zeta. intros H1 H2 H3 H4.
  pose proof (updateReferences_listCalls oldCQ cq w H1) as Hn.
  destruct (updateReferences_lists_ok F oldCQ cq w H1 H2) as (_ & Hfl1 & _).
  destruct (updateReferences_lists_ok F2 oldCQ cq (updateReferences F oldCQ cq w).2)
    as (Hr & Hfl2 & _); [by rewrite Hn | by rewrite Hn |].
  assert (∀ f, (f ∈ (referencedFlavors oldCQ ∖ referencedFlavors cq)
                    ∪ (referencedFlavors cq ∖ referencedFlavors oldCQ) →
                is_Some (flavors w !! f) → updateFault F f = None) →
               flavors (updateReferences F2 oldCQ cq
                          (updateReferences F oldCQ cq w).2).2 !! f
               = flavors (updateReferences F oldCQ cq w).2 !! f) as Hstable.
  { intros f Hok. rewrite Hfl2, Hfl1.
    destruct (flavors w !! f) as [c|] eqn:Hc; [|done]. cbn. f_equal.
    assert (f ∈ referencedFlavors oldCQ ∖ referencedFlavors cq →
            updateFault F f = None) as HA
      by (intros ?; apply Hok; [set_solver | by eexists]).
    assert (f ∈ referencedFlavors cq ∖ referencedFlavors oldCQ →
            updateFault F f = None) as HB
      by (intros ?; apply Hok; [set_solver | by eexists]).
    clear Hok Hfl1 Hfl2.
    repeat case_decide;
      try done; try apply removeRef_idemp; try apply insertRef_idemp;
      exfalso; set_solver. }
  split; [done|]. split.
  - intros f Hok. apply Hstable. auto.
  - intros Hok. apply map_eq. intros f. apply Hstable. auto.
Qed.

End SynchronisationExtras.

Section PredicateExtras.

Context {C Q : Type} `{!CacheAPI C} `{!QueueManagerAPI Q}.
Variable F : Faults.
Variable UpdatesBatchPeriod : Z.

Implicit Types (w : World C Q) (oldCQ cq : ClusterQueue) (obj : Object) (f q : string).

Lemma Create_run cq w :
  Create F (ObjClusterQueue cq) w =
  let s := updateReferences F emptyClusterQueue cq w in
  match s.1 with
  | Some _ => (false, record (EvLogError "Failed to update resource flavor reference") s.2)
  | None =>
      let c := cache_AddClusterQueue (cache s.2) cq in
      let qm := queue_AddClusterQueue (qManager s.2) cq in
      (true, {| flavors := flavors s.2; queues := queues s.2;
                cache := c.1; qManager := qm.1;
                trace := logged qm.2 "Failed to add clusterQueue to queue manager"
                         ++ EvQueueAdd cq
                         :: logged c.2 "Failed to add clusterQueue to cache"
                         ++ EvCacheAdd cq :: trace s.2 |})
  end.
Proof.
  cbv zeta. unfold Create, bind.
  destruct (updateReferences F emptyClusterQueue cq w) as [[e|] w1]; cbn; [done|].
  unfold cacheAdd, queueAdd.
  destruct (cache_AddClusterQueue (cache w1) cq) as [c err1].
  rewrite logIfError_run. cbn.
  destruct (queue_AddClusterQueue (qManager w1) cq) as [qm err2].
  rewrite logIfError_run. cbn. done.
Qed.

Lemma Delete_run cq w :
  Delete F (ObjClusterQueue cq) w =
  let s := updateReferences F cq
             {| cq_Name := cq_Name cq; Spec := emptySpec; Status := Status cq |} w in
  match s.1 with
  | Some _ => (false, record (EvLogError "Fail to remove resource flavor reference") s.2)
  | None =>
      (true, {| flavors := flavors s.2; queues := queues s.2;
                cache := cache_DeleteClusterQueue (cache s.2) cq;
                qManager := queue_DeleteClusterQueue (qManager s.2) cq;
                trace := EvQueueDelete cq :: EvCacheDelete cq :: trace s.2 |})
  end.
Proof.
  cbv zeta. unfold Delete, bind.
  by destruct (updateReferences F cq _ w) as [[e|] w1].
Qed.

Lemma Update_run (objOld : Object) cq w :
  Update F objOld (ObjClusterQueue cq) w =
  let s := match resourcesChanged objOld cq with
           | Some oldCQ => updateReferences F oldCQ cq w
           | None => (None, w)
           end in
  match s.1 with
  | Some _ => (false, record (EvLogError "Fail to update resource flavor reference") s.2)
  | None =>
      let c := cache_UpdateClusterQueue (cache s.2) cq in
      let qm := queue_UpdateClusterQueue (qManager s.2) cq in
      (true, {| flavors := flavors s.2; queues := queues s.2;
                cache := c.1; qManager := qm.1;
                trace := logged qm.2 "Failed to update clusterQueue in queue manager"
                         ++ EvQueueUpdate cq
                         :: logged c.2 "Failed to update clusterQueue in cache"
                         ++ EvCacheUpdate cq :: trace s.2 |})
  end.
Proof.
  cbv zeta. unfold Update, bind.
  destruct (resourcesChanged objOld cq) as [oldCQ|].
  - destruct (updateReferences F oldCQ cq w) as [[e|] w1]; cbn; [done|].
    unfold cacheUpdate, queueUpdate.
    destruct (cache_UpdateClusterQueue (cache w1) cq) as [c err1].
    rewrite logIfError_run. cbn.
    destruct (queue_UpdateClusterQueue (qManager w1) cq) as [qm err2].
    rewrite logIfError_run. cbn. done.
  - unfold ret. cbn. unfold cacheUpdate, queueUpdate.
    destruct (cache_UpdateClusterQueue (cache w) cq) as [c err1].
    rewrite logIfError_run. cbn.
    destruct (queue_UpdateClusterQueue (qManager w) cq) as [qm err2].
    rewrite logIfError_run. cbn. done.
Qed.

Lemma listCalls_logged (err : option error) (msg : string) (e : Event) (t : list Event) :
  isList e = false →
  listCalls (logged err msg ++ e :: t) = listCalls t.
Proof.
  intros He. unfold listCalls. destruct err; cbn; by rewrite He.
Qed.

Lemma Create_flavors cq w :
  flavors (Create F (ObjClusterQueue cq) w).2
  = flavors (updateReferences F emptyClusterQueue cq w).2.
Proof.
  rewrite Create_run. cbv zeta.
  by destruct (updateReferences F emptyClusterQueue cq w).1.
Qed.

Lemma Delete_flavors cq w :
  flavors (Delete F (ObjClusterQueue cq) w).2
  = flavors (updateReferences F cq
               {| cq_Name := cq_Name cq; Spec := emptySpec; Status := Status cq |} w).2.
Proof.
  rewrite Delete_run. cbv zeta.
  by destruct (updateReferences F cq _ w).1.
Qed.

(** X8: a create notification never removes a reference from a flavor, and
    a delete notification never adds one: every queue name a flavor held
    before a create it still holds after, every name it holds after a
    delete it held before. *)
Theorem X8_create_only_adds_delete_only_removes cq w f q
    (refs refs' : option (gmap string string)) :
  flavors w !! f = Some refs →
  (flavors (Create F (ObjClusterQueue cq) w).2 !! f = Some refs' →
   is_Some (refLookup refs q) → is_Some (refLookup refs' q))
  ∧ (flavors (Delete F (ObjClusterQueue cq) w).2 !! f = Some refs' →
     is_Some (refLookup refs' q) → is_Some (refLookup refs q)).
Proof.
  intros Hrefs. split.
  - rewrite Create_flavors.
    destruct (updateReferences_flavor_cases F emptyClusterQueue cq w f)
      as [Hf|[[Hin _]|[_ Hf]]].
    + rewrite Hf, Hrefs. by intros [= ->].
    + change (referencedFlavors emptyClusterQueue) with (∅ : gset string) in Hin.
      set_solver.
    + rewrite Hf, Hrefs. cbn. intros [= <-] Hq.
      destruct (decide (q = cq_Name cq)) as [->|Hne].
      * by rewrite refLookup_insertRef_eq.
      * by rewrite refLookup_insertRef.
  - rewrite Delete_flavors.
    destruct (updateReferences_flavor_cases F cq
                {| cq_Name := cq_Name cq; Spec := emptySpec; Status := Status cq |} w f)
      as [Hf|[[_ Hf]|[Hin _]]].
    + rewrite Hf, Hrefs. by intros [= ->].
    + rewrite Hf, Hrefs. cbn. intros [= <-] Hq.
      destruct (decide (q = cq_Name cq)) as [->|Hne].
      * rewrite refLookup_removeRef_eq in Hq. by destruct Hq.
      * by rewrite refLookup_removeRef in Hq.
    + change (referencedFlavors {| cq_Name := cq_Name cq; Spec := emptySpec;
                                   Status := Status cq |})
        with (∅ : gset string) in Hin.
      set_solver.
Qed.


(** X10: an update notification from one queue to another runs the
    reference synchronisation exactly when the resource groups differ.  If
    the synchronisation fails the predicate returns false and neither the
    cache nor the queue manager is updated; otherwise it returns true and
    both are updated with the new object.  With equal resource groups no
    flavor is listed or changed. *)
Theorem X10_update_predicate oldCQ cq w :
  let r := Update F (ObjClusterQueue oldCQ) (ObjClusterQueue cq) w in
  let s := if decide (Resources (Spec oldCQ) = Resources (Spec cq))
           then (None, w) else updateReferences F oldCQ cq w in
  flavors r.2 = flavors s.2
  ∧ listCalls (trace r.2) = listCalls (trace s.2)
  ∧ match s.1 with
    | Some _ => r.1 = false ∧ cache r.2 = cache w ∧ qManager r.2 = qManager w
    | None =>
        r.1 = true
        ∧ cache r.2 = (cache_UpdateClusterQueue (cache w) cq).1
        ∧ qManager r.2 = (queue_UpdateClusterQueue (qManager w) cq).1
    end.
Proof.
  cbv zeta. rewrite Update_run. cbv zeta. unfold resourcesChanged.
  destruct (decide (Resources (Spec oldCQ) = Resources (Spec cq))) as [Heq|Hne].
  - rewrite bool_decide_eq_true_2 by done. cbn [fst snd flavors cache qManager trace].
    rewrite listCalls_logged by done. by rewrite listCalls_logged.
  - rewrite bool_decide_eq_false_2 by done.
    destruct (updateReferences_frame F oldCQ cq w) as (_ & Hc & Hq).
    destruct (updateReferences F oldCQ cq w) as [[e|] w1];
      cbn [fst snd flavors cache qManager trace record] in *.
    + by rewrite Hc, Hq.
    + rewrite listCalls_logged by done. rewrite listCalls_logged by done.
      by rewrite Hc, Hq.
Qed.

(** X11: no event predicate touches the persisted queues: create, delete
    and update notifications of any object leave every ClusterQueue object
    of the store as it was, and a generic notification changes nothing at
    all. *)
Theorem X11_predicates_keep_persisted_queues obj (objOld : Object) w :
  queues (Create F obj w).2 = queues w
  ∧ queues (Delete F obj w).2 = queues w
  ∧ queues (Update F objOld obj w).2 = queues w
  ∧ Generic obj w = (true, w).
Proof.
  repeat split.
  - destruct obj as [cq| | |]; try done. rewrite Create_run. cbv zeta.
    destruct (updateReferences_frame F emptyClusterQueue cq w) as (Hq & _).
    by destruct (updateReferences F emptyClusterQueue cq w).1.
  - destruct obj as [cq| | |]; try done. rewrite Delete_run. cbv zeta.
    destruct (updateReferences_frame F cq
      {| cq_Name := cq_Name cq; Spec := emptySpec; Status := Status cq |} w) as (Hq & _).
    by destruct (updateReferences F cq _ w).1.
  - destruct obj as [cq| | |]; try done. rewrite Update_run. cbv zeta.
    destruct (resourcesChanged objOld cq) as [oldCQ|]; [|done].
    destruct (updateReferences_frame F oldCQ cq w) as (Hq & _).
    by destruct (updateReferences F oldCQ cq w).1.
Qed.

(** X12: notifications of objects that are not queues pass through: create,
    delete and update return true without any call to the API server, the
    cache or the queue manager, whatever the old object of an update is. *)
Theorem X12_other_kinds_pass_through obj (objOld : Object) w :
  (∀ cq, obj ≠ ObjClusterQueue cq) →
  Create F obj w = (true, w)
  ∧ Delete F obj w = (true, w)
  ∧ Update F objOld obj w = (true, w).
Proof.
  intros Hobj. destruct obj as [cq| | |]; try done. by destruct (Hobj cq).
Qed.

(** X13: the workload handler asks for no reconcile exactly when the
    workload has no admission record and the queue manager knows no queue
    for it; a request never carries a namespace; the handler only ever
    pushes one request on top of the work queue, with the batch period as
    delay, and panics on a payload that is not a workload. *)
Theorem X13_workload_handler (qm : Q) (wl : Workload) obj (wq wq' : WorkQueue) :
  (requestForWorkloadClusterQueue qm wl = None
   ↔ wl_Admission wl = None ∧ (queue_ClusterQueueForWorkload qm wl).2 = false)
  ∧ (∀ req, requestForWorkloadClusterQueue qm wl = Some req → req_Namespace req = "")
  ∧ (cqWorkloadHandler_Generic UpdatesBatchPeriod qm obj wq = Some wq' →
     (∃ wl', obj = ObjWorkload wl')
     ∧ (wq' = wq ∨ ∃ req, wq' = (req, UpdatesBatchPeriod) :: wq))
  ∧ ((∀ wl', obj ≠ ObjWorkload wl') →
     cqWorkloadHandler_Generic UpdatesBatchPeriod qm obj wq = None).
Proof.
  unfold cqWorkloadHandler_Generic, requestForWorkloadClusterQueue.
  split; [|split; [|split]].
  - destruct (wl_Admission wl); [by split; [|intros [? _]]|].
    destruct (queue_ClusterQueueForWorkload qm wl) as [name []]; cbn;
      by split; [|intros [_ ?]].
  - intros req. destruct (wl_Admission wl); [by intros [= <-]|].
    destruct (queue_ClusterQueueForWorkload qm wl) as [name []]; [|done].
    by intros [= <-].
  - destruct obj as [| |wl'|]; try done. intros Hrun. split; [eauto|].
    destruct (requestForWorkloadClusterQueue qm wl') as [req|] eqn:Hreq;
      unfold requestForWorkloadClusterQueue in Hreq; rewrite Hreq in Hrun;
      injection Hrun as <-; [right; eauto | by left].
  - intros Hobj. destruct obj as [| |wl'|]; try done. by destruct (Hobj wl').
Qed.

End PredicateExtras.

Section ReconcileExtras.

Context {C Q : Type} `{!CacheAPI C} `{!QueueManagerAPI Q}.
Variable F : Faults.

Implicit Types (w : World C Q) (cqObj : ClusterQueue).

(** X14: Reconcile reads the cache and the queue manager and writes at most
    one status: it never changes a flavor, the cache or the queue manager,
    never lists or updates flavors, and issues at most one status write. *)
Theorem X14_reconcile_frame (name : string) w :
  let r := Reconcile F name w in
  flavors r.2 = flavors w ∧ cache r.2 = cache w ∧ qManager r.2 = qManager w
  ∧ listCalls (trace r.2) = listCalls (trace w)
  ∧ countEvents isUpdate (trace r.2) = countEvents isUpdate (trace w)
  ∧ (countEvents isStatusUpdate (trace r.2)
     ≤ S (countEvents isStatusUpdate (trace w)))%nat.
Proof.
  cbv zeta. unfold Reconcile, bind, client_Get.
  destruct (getFault F name) as [e|]; cbn; [repeat split; lia|].
  destruct (queues w !! name) as [cqObj|]; cbn; [|repeat split; lia].
  unfold reconciler_Status. cbn.
  destruct (cache_Usage (cache w) cqObj) as [[usage workloads] [e|]]; cbn;
    [repeat split; lia|].
  destruct (SemanticDeepEqual _ (Status cqObj)); cbn; [repeat split; lia|].
  unfold client_StatusUpdate. cbn.
  destruct (statusUpdateFault F (cq_Name cqObj)); cbn; repeat split; lia.
Qed.

(** X15: a request for a queue that cannot be read.  When the object is not
    in the store, or the read reports not-found, Reconcile succeeds without
    doing anything else; any other read error is returned. *)
Theorem X15_reconcile_unreadable_queue (name : string) w :
  (getFault F name = None → queues w !! name = None →
   Reconcile F name w = (None, record (EvGet name) w))
  ∧ (getFault F name = Some ErrNotFound →
     Reconcile F name w = (None, record (EvGet name) w))
  ∧ (∀ e, getFault F name = Some e → e ≠ ErrNotFound →
          Reconcile F name w = (Some e, record (EvGet name) w)).
Proof.
  unfold Reconcile, bind, client_Get. repeat split.
  - by intros -> ->.
  - by intros ->.
  - intros e -> He. by destruct e.
Qed.

(** X16: when the cache cannot give the usage of the queue, Reconcile
    returns the cache's error as it is (a not-found error included), logs
    it, and writes no status. *)
Theorem X16_reconcile_cache_error (name : string) cqObj
    (usage : option (gmap string Z)) (workloads : Z) (e : error) w :
  getFault F name = None →
  queues w !! name = Some cqObj →
  cache_Usage (cache w) cqObj = (usage, workloads, Some e) →
  Reconcile F name w
  = (Some e,
     record (EvLogError "Failed getting status from cache")
       (record (EvLogError "Failed getting usage from cache")
          (record (EvGet name) w))).
Proof.
  intros Hget Hq Husage. unfold Reconcile, bind, client_Get, reconciler_Status.
  rewrite Hget, Hq. cbn [cache record]. by rewrite Husage.
Qed.

(** X17: Reconcile is idempotent.  For a queue stored under its own name,
    with a cache and a queue manager whose answers do not depend on the
    status of the object, after one run whose status write (if any) succeeds
    a second run succeeds, writes no status and leaves the store as the
    first run left it. *)
Theorem X17_reconcile_idempotent (name : string) cqObj
    (usage : option (gmap string Z)) (workloads : Z) w :
  getFault F name = None →
  statusUpdateFault F name = None →
  queues w !! name = Some cqObj →
  cq_Name cqObj = name →
  cache_Usage (cache w) cqObj = (usage, workloads, None) →
  (∀ st, cache_Usage (cache w) (withStatus st cqObj) = cache_Usage (cache w) cqObj) →
  (∀ st, queue_Pending (qManager w) (withStatus st cqObj)
         = queue_Pending (qManager w) cqObj) →
  let r1 := Reconcile F name w in
  let r2 := Reconcile F name r1.2 in
  r1.1 = None ∧ r2.1 = None
  ∧ queues r2.2 = queues r1.2
  ∧ countEvents isStatusUpdate (trace r2.2) = countEvents isStatusUpdate (trace r1.2).
Proof.
  intros Hget Hput Hq Hname Husage Hcache Hpending. cbv zeta.
  rewrite (Reconcile_run F name cqObj usage workloads w Hget Hq Husage). cbv zeta.
  set (status := {| UsedResources := usage;
                    PendingWorkloads := queue_Pending (qManager w) cqObj;
                    AdmittedWorkloads := int32 workloads |}).
  destruct (SemanticDeepEqual status (Status cqObj)) eqn:Heq.
  - cbn [fst snd].
    rewrite (Reconcile_run F name cqObj usage workloads (record (EvGet name) w)
               Hget Hq Husage). cbv zeta.
    cbn [record qManager]. fold status. rewrite Heq. done.
  - unfold client_StatusUpdate. cbn [withStatus cq_Name Status].
    rewrite Hname, Hput. cbn [fst snd IgnoreNotFound].
    set (w2 := setQueues _ _).
    assert (queues w2 !! name = Some (withStatus status cqObj)) as Hq2.
    { unfold w2. cbn. by rewrite lookup_alter_eq, Hq. }
    assert (cache_Usage (cache w2) (withStatus status cqObj) = (usage, workloads, None))
      as Husage2 by (unfold w2; cbn; by rewrite Hcache).
    rewrite (Reconcile_run F name (withStatus status cqObj) usage workloads w2
               Hget Hq2 Husage2). cbv zeta.
    replace (queue_Pending (qManager w2) (withStatus status cqObj))
      with (queue_Pending (qManager w) cqObj) by (unfold w2; cbn; by rewrite Hpending).
    fold status. cbn [Status withStatus]. rewrite SemanticDeepEqual_refl. done.
Qed.

(** X18: the status computed from the cache.  When the cache answers, the
    world is left as it is, the used resources and the pending count are
    those the cache and the queue manager report, and the admitted count is
    the cache's count converted to int32: always within the int32 range,
    equal to the cache's count when that fits, and wrapped around
    otherwise. *)
Theorem X18_status_from_cache cqObj (usage : option (gmap string Z)) (workloads : Z) w :
  cache_Usage (cache w) cqObj = (usage, workloads, None) →
  ∃ st, reconciler_Status cqObj w = (Ok st, w)
        ∧ UsedResources st = usage
        ∧ PendingWorkloads st = queue_Pending (qManager w) cqObj
        ∧ - 2 ^ 31 ≤ AdmittedWorkloads st < 2 ^ 31
        ∧ (AdmittedWorkloads st - workloads) mod 2 ^ 32 = 0
        ∧ (- 2 ^ 31 ≤ workloads < 2 ^ 31 → AdmittedWorkloads st = workloads).
Proof.
  intros Husage. unfold reconciler_Status. rewrite Husage.
  eexists. split; [done|]. cbn [UsedResources PendingWorkloads AdmittedWorkloads].
  unfold int32. repeat split; try done.
  - pose proof (Z.mod_pos_bound (workloads + 2 ^ 31) (2 ^ 32)). lia.
  - pose proof (Z.mod_pos_bound (workloads + 2 ^ 31) (2 ^ 32)). lia.
  - rewrite (Z.mod_eq (workloads + 2 ^ 31) (2 ^ 32)) by lia.
    replace (workloads + 2 ^ 31 - 2 ^ 32 * ((workloads + 2 ^ 31) / 2 ^ 32)
             - 2 ^ 31 - workloads)
      with (- ((workloads + 2 ^ 31) / 2 ^ 32) * 2 ^ 32) by lia.
    apply Z.mod_mul. lia.
  - intros Hrange. rewrite Z.mod_small by lia. lia.
Qed.

End ReconcileExtras.

(** * The further properties on concrete runs *)

(** A flavor listed by two resource groups of the old spec and by one of the
    new spec: the flavor sets are equal and nothing is written. *)
Lemma X3_witness :
  let old := queueWith "cq" [["f"]; ["f"]] in
  let new := queueWith "cq" [["f"]] in
  let w := clusterWorld emptyStatus in
  let r := updateReferences (persistFails "f") old new w in
  Resources (Spec old) ≠ Resources (Spec new)
  ∧ flavors r.2 = twoFlavors
  ∧ ∀ rf, EvUpdate rf ∉ since (trace w) (trace r.2).
Proof.
  cbv zeta. split; [discriminate|].
  apply (X3_same_flavor_set_writes_nothing (persistFails "f")
           (queueWith "cq" [["f"]; ["f"]]) (queueWith "cq" [["f"]])
           (clusterWorld emptyStatus)).
  vm_compute. reflexivity.
Defined.

Lemma X4_witness :
  ∃ c, twoFlavors !! "f" = Some c
       ∧ (("f" ∈ referencedFlavors (queueWith "cq" [["f"]])
                 ∖ referencedFlavors (queueWith "cq" [["g"]])
           ∧ Some ({["other" := ""]} : gmap string string) = removeRef "cq" c)
          ∨ ("f" ∈ referencedFlavors (queueWith "cq" [["g"]])
                   ∖ referencedFlavors (queueWith "cq" [["f"]])
             ∧ Some ({["other" := ""]} : gmap string string) = insertRef "cq" c)).
Proof.
  apply (X4_updates_target_symmetric_difference noFaults
           (queueWith "cq" [["f"]]) (queueWith "cq" [["g"]])
           (clusterWorld emptyStatus)
           {| rf_Name := "f"; ClusterQueues := Some {["other" := ""]} |}).
  vm_compute. do 2 apply list_elem_of_further. apply list_elem_of_here.
Defined.

(** The new spec names a flavor [h] that does not exist. *)
Lemma X5_witness :
  let old := queueWith "cq" [["f"]] in
  let new := queueWith "cq" [["h"]] in
  let w := clusterWorld emptyStatus in
  let r := updateReferences noFaults old new w in
  r.1 = None
  ∧ dom (flavors r.2) = dom twoFlavors
  ∧ EvLogError "Cannot find resource flavor" ∈ since (trace w) (trace r.2).
Proof.
  cbv zeta.
  destruct (X5_missing_flavor_is_logged noFaults
              (queueWith "cq" [["f"]]) (queueWith "cq" [["h"]])
              (clusterWorld emptyStatus) eq_refl eq_refl) as (Hr & Hdom & Hlog).
  split; [exact Hr|]. split; [exact Hdom|].
  apply Hlog. exists "h". split; [|reflexivity].
  apply (bool_decide_unpack _). vm_compute. exact I.
Defined.

Lemma X6_witness :
  let old := queueWith "cq" [["f"]] in
  let new := queueWith "cq" [["g"]] in
  let w := clusterWorld emptyStatus in
  SyncedWhere (λ _, True) "cq" (referencedFlavors old) (referencedFlavors new)
    (flavors w) (flavors (updateReferences noFaults old new w).2).
Proof.
  cbv zeta.
  apply (X6_quiet_success_is_synced noFaults
           (queueWith "cq" [["f"]]) (queueWith "cq" [["g"]])
           (clusterWorld emptyStatus)).
  - reflexivity.
  - intros Hin. apply list_elem_of_In in Hin. vm_compute in Hin.
    destruct Hin as [Hin|[Hin|[Hin|[Hin|[]]]]]; discriminate Hin.
Defined.

(** The first run persists both flavors; in the second run the update of
    [g] fails, and nothing changes. *)
Lemma X7_witness :
  let old := queueWith "cq" [["f"]] in
  let new := queueWith "cq" [["g"]] in
  let r1 := updateReferences noFaults old new (clusterWorld emptyStatus) in
  let r2 := updateReferences (persistFails "g") old new r1.2 in
  r2.1 = None ∧ flavors r2.2 = flavors r1.2.
Proof.
  cbv zeta.
  destruct (X7_synchronisation_idempotent noFaults (persistFails "g")
              (queueWith "cq" [["f"]]) (queueWith "cq" [["g"]])
              (clusterWorld emptyStatus) eq_refl eq_refl eq_refl eq_refl)
    as (Hr & _ & Hall).
  split; [exact Hr|]. apply Hall. intros f _ _. reflexivity.
Defined.

(** A flavor whose update failed in the first run is written by the second:
    the hypothesis of X7 on the first run's updates cannot be dropped. *)
Example second_run_repairs_failed_update :
  let old := queueWith "cq" [["f"]] in
  let new := queueWith "cq" [["g"]] in
  let r1 := updateReferences (persistFails "g") old new (clusterWorld emptyStatus) in
  let r2 := updateReferences noFaults old new r1.2 in
  flavors r1.2 !! "g" = Some None
  ∧ flavors r2.2 !! "g" = Some (Some {["cq" := ""]}).
Proof. cbv zeta. split; by vm_compute. Qed.

(** Flavor [f] holds [other] before a create of [cq] and after it; what
    it holds after a delete of [cq] it held before. *)
Lemma X8_witness :
  let cq := queueWith "cq" [["f"]] in
  let w := clusterWorld emptyStatus in
  (∀ refs', flavors (Create noFaults (ObjClusterQueue cq) w).2 !! "f" = Some refs' →
            is_Some (refLookup refs' "other"))
  ∧ (∀ refs', flavors (Delete noFaults (ObjClusterQueue cq) w).2 !! "f" = Some refs' →
              is_Some (refLookup refs' "cq") →
              is_Some (refLookup (Some (<["cq" := ""]> {["other" := ""]})) "cq")).
Proof.
  cbv zeta. split.
  - intros refs' Hafter.
    apply (proj1 (X8_create_only_adds_delete_only_removes noFaults
                    (queueWith "cq" [["f"]]) (clusterWorld emptyStatus) "f" "other"
                    (Some (<["cq" := ""]> {["other" := ""]})) refs' eq_refl) Hafter).
    eexists. reflexivity.
  - intros refs' Hafter.
    exact (proj2 (X8_create_only_adds_delete_only_removes noFaults
                    (queueWith "cq" [["f"]]) (clusterWorld emptyStatus) "f" "cq"
                    (Some (<["cq" := ""]> {["other" := ""]})) refs' eq_refl) Hafter).
Defined.


Lemma X12_witness :
  let pod := ObjOther "Pod" in
  let w := clusterWorld emptyStatus in
  Create (listFailsAt 0) pod w = (true, w)
  ∧ Delete (listFailsAt 0) pod w = (true, w)
  ∧ Update (listFailsAt 0) (ObjClusterQueue (queueWith "cq" [["f"]])) pod w = (true, w).
Proof.
  cbv zeta.
  apply (X12_other_kinds_pass_through (listFailsAt 0) (ObjOther "Pod")).
  intros cq. discriminate.
Defined.

Lemma X13_witness :
  let qm := qManager (clusterWorld emptyStatus) in
  let stray := {| wl_Namespace := "ns"; wl_Name := "stray"; wl_Admission := None |} in
  requestForWorkloadClusterQueue qm stray = None
  ∧ cqWorkloadHandler_Generic 1000 qm (ObjOther "Pod") [] = None.
Proof.
  cbv zeta. split.
  - apply (proj1 (X13_workload_handler 1000 (qManager (clusterWorld emptyStatus))
                    {| wl_Namespace := "ns"; wl_Name := "stray"; wl_Admission := None |}
                    (ObjOther "Pod") [] [])).
    split; reflexivity.
  - apply (proj2 (proj2 (proj2
             (X13_workload_handler 1000 (qManager (clusterWorld emptyStatus))
                {| wl_Namespace := "ns"; wl_Name := "stray"; wl_Admission := None |}
                (ObjOther "Pod") [] [])))).
    intros wl'. discriminate.
Defined.

Lemma X15_witness :
  let w := clusterWorld emptyStatus in
  Reconcile noFaults "gone" w = (None, record (EvGet "gone") w).
Proof.
  exact (proj1 (X15_reconcile_unreadable_queue noFaults "gone"
                  (clusterWorld emptyStatus)) eq_refl eq_refl).
Defined.

(** The queue is persisted but the cache does not know it yet. *)
Lemma X16_witness :
  let w := setCache (∅ : SimpleCache) (clusterWorld (statusWith 3)) in
  (Reconcile noFaults "cq" w).1 = Some (ErrOther "ClusterQueue not found")
  ∧ queues (Reconcile noFaults "cq" w).2 = queues w.
Proof.
  cbv zeta.
  assert (cache_Usage (cache (setCache (∅ : SimpleCache) (clusterWorld (statusWith 3))))
            (withStatus (statusWith 3) (queueWith "cq" [["f"]]))
          = (None, 0, Some (ErrOther "ClusterQueue not found"))) as Husage
    by (vm_compute; reflexivity).
  rewrite (X16_reconcile_cache_error noFaults "cq"
             (withStatus (statusWith 3) (queueWith "cq" [["f"]])) None 0
             (ErrOther "ClusterQueue not found")
             (setCache (∅ : SimpleCache) (clusterWorld (statusWith 3)))
             eq_refl eq_refl Husage).
  split; reflexivity.
Defined.

Lemma X17_witness :
  let r1 := Reconcile noFaults "cq" (clusterWorld (statusWith 4)) in
  let r2 := Reconcile noFaults "cq" r1.2 in
  r1.1 = None ∧ r2.1 = None
  ∧ queues r2.2 = queues r1.2
  ∧ countEvents isStatusUpdate (trace r2.2) = countEvents isStatusUpdate (trace r1.2).
Proof.
  assert (cache_Usage (cache (clusterWorld (statusWith 4)))
            (withStatus (statusWith 4) (queueWith "cq" [["f"]]))
          = (Some {["cpu" := 2]}, 1, None)) as Husage
    by (vm_compute; reflexivity).
  apply (X17_reconcile_idempotent noFaults "cq"
           (withStatus (statusWith 4) (queueWith "cq" [["f"]]))
           (Some {["cpu" := 2]}) 1 (clusterWorld (statusWith 4))
           eq_refl eq_refl eq_refl eq_refl Husage).
  - intros st. reflexivity.
  - intros st. reflexivity.
Defined.

Lemma X18_witness :
  let w := clusterWorld emptyStatus in
  ∃ st, reconciler_Status (queueWith "cq" [["f"]]) w = (Ok st, w)
        ∧ UsedResources st = Some {["cpu" := 2]}
        ∧ PendingWorkloads st = 3
        ∧ AdmittedWorkloads st = 1.
Proof.
  cbv zeta.
  assert (cache_Usage (cache (clusterWorld emptyStatus)) (queueWith "cq" [["f"]])
          = (Some {["cpu" := 2]}, 1, None)) as Husage
    by (vm_compute; reflexivity).
  destruct (X18_status_from_cache (queueWith "cq" [["f"]]) (Some {["cpu" := 2]}) 1
              (clusterWorld emptyStatus) Husage)
    as (st & Hrun & Hused & Hpending & _ & _ & Hfits).
  exists st. split; [exact Hrun|]. split; [exact Hused|]. split; [exact Hpending|].
  apply Hfits. lia.
Defined.
